(** * useLiveAPI: the live voice session hook

    A shallow embedding of [useLiveAPI] (the React hook that owns the
    microphone capture, the remote live session and the playback timeline)
    together with the part of the host it talks to: worklet ports, timers,
    the suspended [connect()] calls and the remote sessions.

    Conventions.
    - JavaScript numbers (samples, audio-clock times) are exact rationals;
      the rounding of IEEE arithmetic is not modelled.  [Math.sqrt] is
      avoided by comparing squares.
    - React state ([useState]) and refs ([useRef]) are fields of one record;
      a state setter takes effect at once, and a callback reads the current
      value of [isConnected].
    - Host objects (audio contexts, worklet nodes, media streams, timers,
      [connect()] invocations and their sessions) are natural-number
      handles drawn from one counter.
    - Every call the hook makes on a host object is appended to [log]. *)

From Stdlib Require Import QArith Qminmax ZArith List String Lia Lqa Bool Arith.
From Stdlib Require Import Strings.Byte Floats.
From Stdlib Require Import NArith Ascii.
Import ListNotations.

Notation "s |> f" := (f s) (at level 45, left associativity, only parsing).

(** ** Numbers *)

Module Pcm.

(** [Math.max(-1, Math.min(1, x))] *)
Definition clamp (x : Q) : Q := Qmax (-1) (Qmin 1 x).

(** Truncation towards zero, the first step of storing a number into an
    integer typed array. *)
Definition trunc (q : Q) : Z := Z.quot (Qnum q) (Zpos (Qden q)).

(** Store into an [Int16Array] element: truncate, wrap modulo 2^16, read
    as signed. *)
Definition ToInt16 (q : Q) : Z :=
  let m := ((trunc q) mod 65536)%Z in
  if (32768 <=? m)%Z then (m - 65536)%Z else m.

(** [pcmData[i] = Math.max(-1, Math.min(1, inputData[i])) * 0x7FFF] *)
Definition pcm_sample (x : Q) : Z := ToInt16 (clamp x * inject_Z 0x7FFF).

Definition pcm_frame (inputData : list Q) : list Z := map pcm_sample inputData.

(** The inbound direction: [new Int16Array(bytes.buffer)], little endian. *)
Definition int16_of_pair (lo hi : byte) : Z :=
  let u := (Z.of_N (Byte.to_N lo) + 256 * Z.of_N (Byte.to_N hi))%Z in
  if (32768 <=? u)%Z then (u - 65536)%Z else u.

Fixpoint Int16Array_of_bytes (bs : list byte) : list Z :=
  match bs with
  | lo :: hi :: rest => int16_of_pair lo hi :: Int16Array_of_bytes rest
  | _ => []
  end.

(** [float32Data[i] = pcmData[i] / 32768.0] *)
Definition float32_of_pcm (v : Z) : Q := v # 32768.

End Pcm.

(** The same outbound conversion on IEEE binary64 numbers, to evaluate it
    bit for bit at chosen samples. *)
Module Binary64.

Definition Math_min (a b : float) : float :=
  if (PrimFloat.is_nan a || PrimFloat.is_nan b)%bool then PrimFloat.nan
  else if PrimFloat.ltb a b then a
  else if PrimFloat.ltb b a then b
  else if PrimFloat.get_sign a then a else b.

Definition Math_max (a b : float) : float :=
  if (PrimFloat.is_nan a || PrimFloat.is_nan b)%bool then PrimFloat.nan
  else if PrimFloat.ltb a b then b
  else if PrimFloat.ltb b a then a
  else if PrimFloat.get_sign a then b else a.

(** Truncation towards zero; not-a-number and the infinities give 0. *)
Definition trunc (x : float) : Z :=
  match Prim2SF x with
  | S754_finite sign m e =>
      let magnitude := match e with
                       | Z0 => Zpos m
                       | Zpos p => Z.shiftl (Zpos m) (Zpos p)
                       | Zneg p => Z.shiftr (Zpos m) (Zpos p)
                       end in
      if sign then Z.opp magnitude else magnitude
  | _ => 0%Z
  end.

Definition ToInt16 (x : float) : Z :=
  let m := ((trunc x) mod 65536)%Z in
  if (32768 <=? m)%Z then (m - 65536)%Z else m.

Definition pcm_sample (x : float) : Z :=
  ToInt16 (PrimFloat.mul (Math_max (-1)%float (Math_min 1%float x)) 32767%float).

End Binary64.

Module Talk.

(** [sum += inputData[i] * inputData[i]] *)
Definition sum_squares (inputData : list Q) : Q :=
  fold_left (fun sum x => sum + x * x) inputData 0.

(** [Math.sqrt(sum / inputData.length) > 0.01], decided on the squares.
    An empty frame gives 0/0, which is not a number and compares false. *)
Definition rms_exceeds (inputData : list Q) : bool :=
  match inputData with
  | [] => false
  | _ => negb (Qle_bool (sum_squares inputData / inject_Z (Z.of_nat (List.length inputData)))
                        (1 # 10000))
  end.

(** The delay passed to [setTimeout], in milliseconds. *)
Definition decay_ms : nat := 500.

End Talk.

(** ** Data model *)

Definition SessionId := nat.
Definition NodeId := nat.
Definition CtxId := nat.
Definition StreamId := nat.
Definition TimerId := nat.

Inductive Role := user | model.

Record Message := mkMessage { role : Role; text : string }.

(** The fields of an inbound message that the hook reads.  [inlineData] is
    [serverContent.modelTurn.parts[0].inlineData.data] after [atob], [None]
    when the field is missing or empty; a transcription is the [text] of
    the field, [None] when it is missing. *)
Record LiveServerMessage := mkServerMessage {
  inlineData : option (list byte);
  interrupted : bool;
  outputTranscription : option string;
  inputTranscription : option string
}.

(** Calls made on host objects. *)
Inductive Call :=
| new_AudioContext (c : CtxId)
| call_getUserMedia
| node_connect (n : NodeId) (c : CtxId)
| live_connect (k : SessionId)
| session_close (k : SessionId)
| send_media (k : SessionId) (pcm : list Z)
| send_text (k : SessionId) (t : string)
| node_disconnect (n : NodeId)
| context_close (c : CtxId)
| track_stop (st : StreamId)
| source_start (startTime duration : Q) (samples : list Q).

(** Where a suspended [connect()] call is waiting. *)
Inductive Stage :=
| AwaitAddModule (c : CtxId)
| AwaitGetUserMedia
| AwaitSession (n : NodeId).

(** The remote side of a session requested with [ai.live.connect]. *)
Inductive Status := Pending | Open | Closing | Closed.

Record Request := mkRequest { req_node : NodeId; req_status : Status }.

Record State := mkState {
  (* useState *)
  isConnected : bool;
  isAITalking : bool;
  isUserTalking : bool;
  messages : list Message;
  error : option string;
  (* useRef *)
  sessionRef : option SessionId;
  isSessionActiveRef : bool;
  isConnectingRef : bool;
  audioContextRef : option CtxId;
  streamRef : option StreamId;
  nextStartTimeRef : Q;
  workletNodeRef : option NodeId;
  userTalkingTimeoutRef : option TimerId;
  (* host *)
  port_onmessage : list NodeId;        (* nodes whose port.onmessage is set *)
  timers : list (TimerId * nat);       (* pending timeouts and when they are due *)
  clock : nat;                         (* milliseconds *)
  fresh : nat;                         (* next unused handle *)
  tasks : list (SessionId * Stage);    (* suspended connect() calls *)
  sessions : list (SessionId * Request);
  modules : list CtxId;                (* contexts with 'audio-processor' registered *)
  log : list Call
}.

(** Field updates. *)
Definition set_isConnected v '(mkState co ai us ms er se ac cg ctx st nx wn ut po tm ck fr tk ss md lg) :=
  mkState v ai us ms er se ac cg ctx st nx wn ut po tm ck fr tk ss md lg.
Definition set_isAITalking v '(mkState co ai us ms er se ac cg ctx st nx wn ut po tm ck fr tk ss md lg) :=
  mkState co v us ms er se ac cg ctx st nx wn ut po tm ck fr tk ss md lg.
Definition set_isUserTalking v '(mkState co ai us ms er se ac cg ctx st nx wn ut po tm ck fr tk ss md lg) :=
  mkState co ai v ms er se ac cg ctx st nx wn ut po tm ck fr tk ss md lg.
Definition set_messages v '(mkState co ai us ms er se ac cg ctx st nx wn ut po tm ck fr tk ss md lg) :=
  mkState co ai us v er se ac cg ctx st nx wn ut po tm ck fr tk ss md lg.
Definition set_error v '(mkState co ai us ms er se ac cg ctx st nx wn ut po tm ck fr tk ss md lg) :=
  mkState co ai us ms v se ac cg ctx st nx wn ut po tm ck fr tk ss md lg.
Definition set_sessionRef v '(mkState co ai us ms er se ac cg ctx st nx wn ut po tm ck fr tk ss md lg) :=
  mkState co ai us ms er v ac cg ctx st nx wn ut po tm ck fr tk ss md lg.
Definition set_isSessionActiveRef v '(mkState co ai us ms er se ac cg ctx st nx wn ut po tm ck fr tk ss md lg) :=
  mkState co ai us ms er se v cg ctx st nx wn ut po tm ck fr tk ss md lg.
Definition set_isConnectingRef v '(mkState co ai us ms er se ac cg ctx st nx wn ut po tm ck fr tk ss md lg) :=
  mkState co ai us ms er se ac v ctx st nx wn ut po tm ck fr tk ss md lg.
Definition set_audioContextRef v '(mkState co ai us ms er se ac cg ctx st nx wn ut po tm ck fr tk ss md lg) :=
  mkState co ai us ms er se ac cg v st nx wn ut po tm ck fr tk ss md lg.
Definition set_streamRef v '(mkState co ai us ms er se ac cg ctx st nx wn ut po tm ck fr tk ss md lg) :=
  mkState co ai us ms er se ac cg ctx v nx wn ut po tm ck fr tk ss md lg.
Definition set_nextStartTimeRef v '(mkState co ai us ms er se ac cg ctx st nx wn ut po tm ck fr tk ss md lg) :=
  mkState co ai us ms er se ac cg ctx st v wn ut po tm ck fr tk ss md lg.
Definition set_workletNodeRef v '(mkState co ai us ms er se ac cg ctx st nx wn ut po tm ck fr tk ss md lg) :=
  mkState co ai us ms er se ac cg ctx st nx v ut po tm ck fr tk ss md lg.
Definition set_userTalkingTimeoutRef v '(mkState co ai us ms er se ac cg ctx st nx wn ut po tm ck fr tk ss md lg) :=
  mkState co ai us ms er se ac cg ctx st nx wn v po tm ck fr tk ss md lg.
Definition set_port_onmessage v '(mkState co ai us ms er se ac cg ctx st nx wn ut po tm ck fr tk ss md lg) :=
  mkState co ai us ms er se ac cg ctx st nx wn ut v tm ck fr tk ss md lg.
Definition set_timers v '(mkState co ai us ms er se ac cg ctx st nx wn ut po tm ck fr tk ss md lg) :=
  mkState co ai us ms er se ac cg ctx st nx wn ut po v ck fr tk ss md lg.
Definition set_clock v '(mkState co ai us ms er se ac cg ctx st nx wn ut po tm ck fr tk ss md lg) :=
  mkState co ai us ms er se ac cg ctx st nx wn ut po tm v fr tk ss md lg.
Definition set_fresh v '(mkState co ai us ms er se ac cg ctx st nx wn ut po tm ck fr tk ss md lg) :=
  mkState co ai us ms er se ac cg ctx st nx wn ut po tm ck v tk ss md lg.
Definition set_tasks v '(mkState co ai us ms er se ac cg ctx st nx wn ut po tm ck fr tk ss md lg) :=
  mkState co ai us ms er se ac cg ctx st nx wn ut po tm ck fr v ss md lg.
Definition set_sessions v '(mkState co ai us ms er se ac cg ctx st nx wn ut po tm ck fr tk ss md lg) :=
  mkState co ai us ms er se ac cg ctx st nx wn ut po tm ck fr tk v md lg.
Definition set_modules v '(mkState co ai us ms er se ac cg ctx st nx wn ut po tm ck fr tk ss md lg) :=
  mkState co ai us ms er se ac cg ctx st nx wn ut po tm ck fr tk ss v lg.
Definition set_log v '(mkState co ai us ms er se ac cg ctx st nx wn ut po tm ck fr tk ss md lg) :=
  mkState co ai us ms er se ac cg ctx st nx wn ut po tm ck fr tk ss md v.

Definition emit (c : Call) (s : State) : State := set_log (log s ++ [c]) s.

Definition initial : State :=
  mkState false false false [] None None false false None None 0 None None
          [] [] 0%nat 0%nat [] [] [] [].

(** Association lists keyed by handles. *)
Fixpoint lookup {A} (k : nat) (l : list (nat * A)) : option A :=
  match l with
  | [] => None
  | (k', a) :: l' => if Nat.eqb k k' then Some a else lookup k l'
  end.

Fixpoint delete {A} (k : nat) (l : list (nat * A)) : list (nat * A) :=
  match l with
  | [] => []
  | (k', a) :: l' => if Nat.eqb k k' then delete k l' else (k', a) :: delete k l'
  end.

Definition store {A} (k : nat) (a : A) (l : list (nat * A)) : list (nat * A) :=
  (k, a) :: delete k l.

Definition mem (n : nat) (l : list nat) : bool := existsb (Nat.eqb n) l.

Definition without (n : nat) (l : list nat) : list nat :=
  filter (fun m => negb (Nat.eqb n m)) l.

Fixpoint adjust {A} (k : nat) (f : A -> A) (l : list (nat * A)) : list (nat * A) :=
  match l with
  | [] => []
  | (k', a) :: l' => if Nat.eqb k k' then (k', f a) :: l' else (k', a) :: adjust k f l'
  end.

(** ** Host operations used by the hook *)

(** [session.close()] starts the closing handshake of a session that is
    still pending or open. *)
Definition closing (r : Request) : Request :=
  match req_status r with
  | Pending | Open => mkRequest (req_node r) Closing
  | _ => r
  end.

Definition close_session (k : SessionId) (s : State) : State :=
  let s := emit (session_close k) s in
  set_sessions (adjust k closing (sessions s)) s.

Definition clearTimeout (id : TimerId) (s : State) : State :=
  set_timers (delete id (timers s)) s.

(** [userTalkingTimeoutRef.current = setTimeout(() => setIsUserTalking(false), 500)] *)
Definition setTimeout_userTalking (s : State) : State :=
  let id := fresh s in
  let s := set_timers (timers s ++ [(id, (clock s + Talk.decay_ms)%nat)]) s in
  let s := set_fresh (S id) s in
  set_userTalkingTimeoutRef (Some id) s.

(** [if (workletNodeRef.current) workletNodeRef.current.port.onmessage = null] *)
Definition detach_capture (s : State) : State :=
  match workletNodeRef s with
  | Some n => set_port_onmessage (without n (port_onmessage s)) s
  | None => s
  end.

(** ** The hook's functions *)

Definition stopAudio (s : State) : State :=
  let s := set_isSessionActiveRef false s in
  let s := match workletNodeRef s with
           | Some n => s |> detach_capture |> emit (node_disconnect n)
                         |> set_workletNodeRef None
           | None => s
           end in
  let s := match audioContextRef s with
           | Some c => s |> emit (context_close c) |> set_audioContextRef None
           | None => s
           end in
  let s := match streamRef s with
           | Some st => s |> emit (track_stop st) |> set_streamRef None
           | None => s
           end in
  s |> set_isAITalking false |> set_isUserTalking false |> set_nextStartTimeRef 0.

(** The body of the capture callback installed by [onopen].  [send_ok]
    tells whether [session.sendRealtimeInput] returns or throws.  A timer
    handle is truthy. *)
Definition worklet_onmessage (inputData : list Q) (send_ok : bool) (s : State) : State :=
  match sessionRef s with
  | None => s
  | Some session =>
    if negb (isSessionActiveRef s) then s else
    let s :=
      if Talk.rms_exceeds inputData then
        let s := set_isUserTalking true s in
        let s := match userTalkingTimeoutRef s with
                 | Some id => clearTimeout id s
                 | None => s
                 end in
        setTimeout_userTalking s
      else s in
    let pcmData := Pcm.pcm_frame inputData in
    if isSessionActiveRef s then
      if send_ok then emit (send_media session pcmData) s
      else s |> set_isSessionActiveRef false |> detach_capture
    else s
  end.

(** The timer callback [() => setIsUserTalking(false)]. *)
Definition userTalking_timeout (s : State) : State := set_isUserTalking false s.

(** How a block of the asynchronous [onmessage] ends. *)
Inductive Completion := Normal (s : State) | Thrown (s : State).

(** Decoding and scheduling of one audio payload; [now] is
    [audioContextRef.current.currentTime].  An odd byte count makes the
    [Int16Array] constructor throw, an empty buffer makes [createBuffer]
    throw. *)
Definition schedule_audio (bytes : list byte) (now : Q) (s : State) : Completion :=
  let s := set_isAITalking true s in
  if Nat.odd (List.length bytes) then Thrown s
  else
    let pcmData := Pcm.Int16Array_of_bytes bytes in
    let float32Data := map Pcm.float32_of_pcm pcmData in
    match audioContextRef s with
    | None => Normal s
    | Some _ =>
      match float32Data with
      | [] => Thrown s
      | _ =>
        let duration := Z.of_nat (List.length float32Data) # 24000 in
        let startTime := Qmax now (nextStartTimeRef s) in
        Normal (s |> emit (source_start startTime duration float32Data)
                  |> set_nextStartTimeRef (startTime + duration))
      end
    end.

Definition truthy (t : option string) : option string :=
  match t with
  | Some EmptyString => None
  | _ => t
  end.

Definition append_message (r : Role) (t : option string) (s : State) : State :=
  match truthy t with
  | Some txt => set_messages (messages s ++ [mkMessage r txt]) s
  | None => s
  end.

Definition onmessage (m : LiveServerMessage) (now : Q) (s : State) : State :=
  if negb (isSessionActiveRef s) then s else
  let audio :=
    match inlineData m with
    | Some bytes => if isSessionActiveRef s then schedule_audio bytes now s else Normal s
    | None => Normal s
    end in
  match audio with
  | Thrown s => s
  | Normal s =>
    let s := if interrupted m
             then s |> set_nextStartTimeRef 0 |> set_isAITalking false
             else s in
    s |> append_message model (outputTranscription m)
      |> append_message user (inputTranscription m)
  end.

(** [source.onended] *)
Definition source_onended (now : Q) (s : State) : State :=
  match audioContextRef s with
  | Some _ => if Qle_bool (nextStartTimeRef s - (1 # 10)) now
              then set_isAITalking false s else s
  | None => s
  end.

Definition onopen (workletNode : NodeId) (s : State) : State :=
  s |> set_isConnected true |> set_isSessionActiveRef true
    |> set_isConnectingRef false |> set_error None
    |> set_port_onmessage (workletNode :: without workletNode (port_onmessage s)).

Definition onclose (s : State) : State :=
  s |> set_isConnected false |> set_isSessionActiveRef false
    |> set_isConnectingRef false |> stopAudio.

Definition onerror (s : State) : State :=
  s |> set_error (Some "Connection error. Please try again."%string)
    |> set_isConnected false |> set_isSessionActiveRef false
    |> set_isConnectingRef false |> stopAudio.

(** [connect()], cut at its three awaits.  The invocation and the session
    it requests share the handle [k]. *)
Definition connect (s : State) : State :=
  if isConnectingRef s || isConnected s then s else
  let c := fresh s in
  let k := S c in
  s |> set_isConnectingRef true |> set_isSessionActiveRef true |> set_error None
    |> set_audioContextRef (Some c) |> emit (new_AudioContext c)
    |> set_tasks (tasks s ++ [(k, AwaitAddModule c)])
    |> set_fresh (S k).

(** The [catch] block of [connect()]. *)
Definition connect_catch (s : State) : State :=
  s |> set_error (Some "Could not access microphone or connect to API."%string)
    |> set_isConnectingRef false |> set_isSessionActiveRef false |> stopAudio.

Definition finish (k : SessionId) (s : State) : State :=
  set_tasks (delete k (tasks s)) s.

(** After [await addModule(workletUrl)]. *)
Definition connect_addModule (k : SessionId) (c : CtxId) (ok : bool) (s : State) : State :=
  if ok then
    s |> set_modules (c :: modules s) |> emit call_getUserMedia
      |> set_tasks (store k AwaitGetUserMedia (tasks s))
  else s |> finish k |> connect_catch.

(** After [await getUserMedia(...)] up to [await sessionPromise].  Reading a
    property of a null [audioContextRef.current] throws, and so does
    creating the node in a context without the processor. *)
Definition connect_getUserMedia (k : SessionId) (r : option StreamId) (s : State) : State :=
  match r with
  | None => s |> finish k |> connect_catch
  | Some st =>
    let s := set_streamRef (Some st) s in
    match audioContextRef s with
    | None => s |> finish k |> connect_catch
    | Some c =>
      if mem c (modules s) then
        let n := fresh s in
        s |> set_fresh (S n) |> set_workletNodeRef (Some n) |> emit (node_connect n c)
          |> emit (live_connect k)
          |> set_sessions (store k (mkRequest n Pending) (sessions s))
          |> set_tasks (store k (AwaitSession n) (tasks s))
      else s |> finish k |> connect_catch
    end
  end.

(** After [await sessionPromise]. *)
Definition connect_session (k : SessionId) (ok : bool) (s : State) : State :=
  let s := finish k s in
  if ok then
    if negb (isSessionActiveRef s)
    then s |> close_session k |> set_isConnectingRef false
    else s |> set_sessionRef (Some k) |> set_isConnectingRef false
  else connect_catch s.

Definition disconnect (s : State) : State :=
  let s := s |> set_isSessionActiveRef false |> set_isConnectingRef false
             |> detach_capture in
  let s := match sessionRef s with
           | Some k => s |> close_session k |> set_sessionRef None
           | None => s
           end in
  s |> stopAudio |> set_isConnected false.

Definition sendTextMessage (t : string) (send_ok : bool) (s : State) : State :=
  match sessionRef s with
  | Some session =>
    if isConnected s && isSessionActiveRef s then
      if send_ok
      then s |> emit (send_text session t)
             |> set_messages (messages s ++ [mkMessage user t])
      else s
    else s
  | None => s
  end.

(** ** Events of the single-threaded host *)

Inductive Event :=
| ev_connect
| ev_disconnect
| ev_sendTextMessage (t : string) (send_ok : bool)
| ev_addModule (k : SessionId) (ok : bool)
| ev_getUserMedia (k : SessionId) (r : option StreamId)
| ev_session (k : SessionId) (ok : bool)
| ev_open (k : SessionId)
| ev_message (k : SessionId) (m : LiveServerMessage) (now : Q)
| ev_close (k : SessionId)
| ev_error (k : SessionId)
| ev_frame (n : NodeId) (inputData : list Q) (send_ok : bool)
| ev_ended (now : Q)
| ev_timeout (id : TimerId)
| ev_tick (ms : nat).

Definition set_status (k : SessionId) (st : Status) (s : State) : State :=
  set_sessions (adjust k (fun r => mkRequest (req_node r) st) (sessions s)) s.

Definition status_of (k : SessionId) (s : State) : option Status :=
  option_map req_status (lookup k (sessions s)).

(** One event.  An event the host cannot deliver in the current state (a
    continuation that is not suspended, a callback of a closed session, a
    frame on a port without handler, a timer that is not due) leaves the
    state as it is.  The callbacks of the session requested by invocation
    [k] close over that invocation's worklet node.  The host is taken
    liberally: a frame may arrive on any port that has a handler, and
    [onopen] and the resolution of the session promise may come in either
    order (the client library calls [onopen] first). *)
Definition step (s : State) (e : Event) : State :=
  match e with
  | ev_connect => connect s
  | ev_disconnect => disconnect s
  | ev_sendTextMessage t ok => sendTextMessage t ok s
  | ev_addModule k ok =>
      match lookup k (tasks s) with
      | Some (AwaitAddModule c) => connect_addModule k c ok s
      | _ => s
      end
  | ev_getUserMedia k r =>
      match lookup k (tasks s) with
      | Some AwaitGetUserMedia => connect_getUserMedia k r s
      | _ => s
      end
  | ev_session k ok =>
      match lookup k (tasks s) with
      | Some (AwaitSession _) => connect_session k ok s
      | _ => s
      end
  | ev_open k =>
      match lookup k (sessions s) with
      | Some (mkRequest n Pending) => s |> set_status k Open |> onopen n
      | _ => s
      end
  | ev_message k m now =>
      match status_of k s with
      | Some Open => onmessage m now s
      | _ => s
      end
  | ev_close k =>
      match status_of k s with
      | Some Closed | None => s
      | Some _ => s |> set_status k Closed |> onclose
      end
  | ev_error k =>
      match status_of k s with
      | Some Closed | None => s
      | Some _ => onerror s
      end
  | ev_frame n inputData ok =>
      if mem n (port_onmessage s) then worklet_onmessage inputData ok s else s
  | ev_ended now => source_onended now s
  | ev_timeout id =>
      match lookup id (timers s) with
      | Some due =>
          if (due <=? clock s)%nat
          then s |> clearTimeout id |> userTalking_timeout
          else s
      | None => s
      end
  | ev_tick ms => set_clock (clock s + ms)%nat s
  end.

Definition run (s : State) (es : list Event) : State := fold_left step es s.

(** Sessions whose remote side is open. *)
Definition open_sessions (s : State) : list SessionId :=
  map fst (filter (fun kr => match req_status (snd kr) with Open => true | _ => false end)
                  (sessions s)).

(** ** Vocabulary of the properties *)

(** Calls [stopAudio] makes on the devices it releases. *)
Definition teardown_calls (s : State) : list Call :=
  match workletNodeRef s with Some n => [node_disconnect n] | None => [] end ++
  match audioContextRef s with Some c => [context_close c] | None => [] end ++
  match streamRef s with Some st => [track_stop st] | None => [] end.

(** The worklet ports with a handler once the current node is detached. *)
Definition detached (s : State) : list NodeId := port_onmessage (detach_capture s).

(** An audio payload that decodes to at least one sample. *)
Definition well_formed (bytes : list byte) : bool :=
  Nat.even (List.length bytes) && (2 <=? List.length bytes)%nat.

Definition decodable (m : LiveServerMessage) : bool :=
  match inlineData m with
  | Some bytes => well_formed bytes
  | None => true
  end.

(** An inbound audio chunk without interruption signal. *)
Definition audio_chunk (m : LiveServerMessage) : bool :=
  match inlineData m with
  | Some bytes => well_formed bytes && negb (interrupted m)
  | None => false
  end.

Definition samples_of (m : LiveServerMessage) : list Q :=
  match inlineData m with
  | Some bytes => map Pcm.float32_of_pcm (Pcm.Int16Array_of_bytes bytes)
  | None => []
  end.

(** [audioBuffer.duration] of the buffer built from the payload. *)
Definition duration_of (m : LiveServerMessage) : Q :=
  Z.of_nat (List.length (samples_of m)) # 24000.

(** The segments handed to [source.start], as (start, duration). *)
Definition segments (l : list Call) : list (Q * Q) :=
  flat_map (fun c => match c with
                     | source_start startTime duration _ => [(startTime, duration)]
                     | _ => []
                     end) l.

(** Inbound messages handled one after the other, each with the reading of
    the output clock at its arrival. *)
Definition play (s : State) (ms : list (LiveServerMessage * Q)) : State :=
  fold_left (fun s mc => onmessage (fst mc) (snd mc) s) ms s.

Definition arrivals (ms : list (LiveServerMessage * Q)) : list (Q * Q) :=
  map (fun mc => (snd mc, duration_of (fst mc))) ms.

(** The scheduling rule in the words of the specification:
    start = max(now, nextFreeTime), then nextFreeTime = start + duration. *)
Fixpoint timeline (nextFreeTime : Q) (chunks : list (Q * Q)) : list (Q * Q) :=
  match chunks with
  | [] => []
  | (now, duration) :: rest =>
      let start := Qmax now nextFreeTime in
      (start, duration) :: timeline (start + duration) rest
  end.

(** Events of the talk detector itself. *)
Definition detector_event (e : Event) : bool :=
  match e with
  | ev_frame _ _ _ | ev_timeout _ | ev_tick _ => true
  | _ => false
  end.

(** Events other than a frame above the threshold and other than those
    that can run [stopAudio]. *)
Definition quiet (e : Event) : bool :=
  match e with
  | ev_frame _ inputData _ => negb (Talk.rms_exceeds inputData)
  | ev_disconnect | ev_close _ | ev_error _ => false
  | ev_addModule _ false | ev_getUserMedia _ _ | ev_session _ false => false
  | _ => true
  end.

(** At most one timeout is pending, and it is the one the ref holds. *)
Definition timers_tracked (s : State) : Prop :=
  timers s = [] \/
  exists id due, timers s = [(id, due)] /\ userTalkingTimeoutRef s = Some id.

(** While the decay timer [(id, due)] is pending the flag is up; once it
    has fired the window has elapsed and the flag is down. *)
Definition decaying (id : TimerId) (due : nat) (s : State) : Prop :=
  (timers s = [(id, due)] /\ isUserTalking s = true) \/
  (timers s = [] /\ (due <= clock s)%nat /\ isUserTalking s = false).

Definition is_send (c : Call) : bool :=
  match c with
  | send_media _ _ | send_text _ _ => true
  | _ => false
  end.

Definition sends (l : list Call) : list Call := filter is_send l.

Definition is_close (c : Call) : bool :=
  match c with
  | session_close _ => true
  | _ => false
  end.

Definition closes (l : list Call) : list Call := filter is_close l.

(** The two places that set [isSessionActiveRef.current = true]. *)
Definition rearms (e : Event) : bool :=
  match e with
  | ev_connect | ev_open _ => true
  | _ => false
  end.

(** ** Sample runs *)

(** [connect()] up to the pending [await sessionPromise]: context 0,
    invocation and session 1, stream 7, worklet node 2. *)
Definition connecting : State :=
  run initial [ev_connect; ev_addModule 1%nat true; ev_getUserMedia 1%nat (Some 7%nat)].

(** The session opens and the promise resolves. *)
Definition connected : State := run connecting [ev_open 1%nat; ev_session 1%nat true].

(** Two samples of 0x4000, that is 0.5 each. *)
Definition chunk : LiveServerMessage :=
  mkServerMessage (Some [x00; x40; x00; x40]) false None None.

Definition barge_in : LiveServerMessage := mkServerMessage None true None None.

Definition loud : list Q := [1 # 2; -1 # 2].

(** ** The wire format of audio *)

(** [btoa] and [atob] of the host, on strings of code units below 256. *)
Module Base64.
Local Open Scope nat_scope.

Definition alphabet : list ascii :=
  list_ascii_of_string "ABCDEFGHIJKLMNOPQRSTUVWXYZabcdefghijklmnopqrstuvwxyz0123456789+/".

Definition pad_char : ascii := "="%char.

(** The character of a 6-bit value. *)
Definition char_of (sextet : N) : ascii := nth (N.to_nat sextet) alphabet pad_char.

Fixpoint index_of (a : ascii) (l : list ascii) (i : N) : option N :=
  match l with
  | [] => None
  | b :: l' => if Ascii.eqb a b then Some i else index_of a l' (N.succ i)
  end.

(** The 6-bit value of a character of the alphabet. *)
Definition sextet_of (a : ascii) : option N := index_of a alphabet 0%N.

(** [btoa] on the code units of a binary string. *)
Fixpoint encode (s : list ascii) : list ascii :=
  match s with
  | [] => []
  | [a] =>
      let x := N_of_ascii a in
      [char_of (x / 4); char_of ((x mod 4) * 16); pad_char; pad_char]
  | [a; b] =>
      let x := N_of_ascii a in
      let y := N_of_ascii b in
      [char_of (x / 4); char_of ((x mod 4) * 16 + y / 16); char_of ((y mod 16) * 4);
       pad_char]
  | a :: b :: c :: rest =>
      let x := N_of_ascii a in
      let y := N_of_ascii b in
      let z := N_of_ascii c in
      char_of (x / 4) :: char_of ((x mod 4) * 16 + y / 16)
        :: char_of ((y mod 16) * 4 + z / 64) :: char_of (z mod 64) :: encode rest
  end%N.

(** Tab, line feed, form feed, carriage return and space. *)
Definition is_whitespace (a : ascii) : bool :=
  match N_of_ascii a with
  | 9 | 10 | 12 | 13 | 32 => true
  | _ => false
  end%N.

(** Remove one or two trailing padding characters. *)
Definition unpad (l : list ascii) : list ascii :=
  match rev l with
  | p :: q :: r =>
      if Ascii.eqb p pad_char
      then if Ascii.eqb q pad_char then rev r else rev (q :: r)
      else l
  | [p] => if Ascii.eqb p pad_char then [] else l
  | [] => l
  end.

Fixpoint sextets_of (l : list ascii) : option (list N) :=
  match l with
  | [] => Some []
  | a :: l' =>
      match sextet_of a, sextets_of l' with
      | Some v, Some vs => Some (v :: vs)
      | _, _ => None
      end
  end.

(** 24 bits at a time; 12 or 18 left-over bits give one or two bytes. *)
Fixpoint bytes_of_sextets (l : list N) : list ascii :=
  match l with
  | p :: q :: r :: t :: rest =>
      ascii_of_N (p * 4 + q / 16) :: ascii_of_N ((q mod 16) * 16 + r / 4)
        :: ascii_of_N ((r mod 4) * 64 + t) :: bytes_of_sextets rest
  | [p; q; r] => [ascii_of_N (p * 4 + q / 16); ascii_of_N ((q mod 16) * 16 + r / 4)]
  | [p; q] => [ascii_of_N (p * 4 + q / 16)]
  | _ => []
  end%N.

(** [atob]: white space is dropped, padding is removed from a text whose
    length is a multiple of four, a length of 4 n + 1 or a character outside
    the alphabet is an error ([None]). *)
Definition decode (data : list ascii) : option (list ascii) :=
  let data := filter (fun a => negb (is_whitespace a)) data in
  let data := if (List.length data mod 4 =? 0) then unpad data else data in
  if (List.length data mod 4 =? 1) then None
  else option_map bytes_of_sextets (sextets_of data).

Definition btoa (s : string) : string :=
  string_of_list_ascii (encode (list_ascii_of_string s)).

Definition atob (s : string) : option string :=
  option_map string_of_list_ascii (decode (list_ascii_of_string s)).

(** The 6-bit values and the padding of an encoding, apart. *)
Definition small (n : N) : Prop := (n < 64)%N.

Fixpoint body (s : list ascii) : list N :=
  match s with
  | [] => []
  | [a] => let x := N_of_ascii a in [x / 4; (x mod 4) * 16]
  | [a; b] =>
      let x := N_of_ascii a in
      let y := N_of_ascii b in
      [x / 4; (x mod 4) * 16 + y / 16; (y mod 16) * 4]
  | a :: b :: c :: rest =>
      let x := N_of_ascii a in
      let y := N_of_ascii b in
      let z := N_of_ascii c in
      x / 4 :: (x mod 4) * 16 + y / 16 :: (y mod 16) * 4 + z / 64 :: z mod 64 :: body rest
  end%N.

Definition padding (s : list ascii) : list ascii :=
  match List.length s mod 3 with
  | 1 => [pad_char; pad_char]
  | 2 => [pad_char]
  | _ => []
  end.

End Base64.

Module Wire.
Local Open Scope nat_scope.

Definition byte_of_N (n : N) : byte :=
  match Byte.of_N n with
  | Some b => b
  | None => x00
  end.

(** The two bytes of an [Int16Array] element, least significant first. *)
Definition bytes_of_int16 (v : Z) : list byte :=
  let u := Z.to_N (v mod 65536) in
  [byte_of_N (u mod 256); byte_of_N (u / 256)].

(** [pcmData.buffer] seen through [new Uint8Array(buffer)]. *)
Definition buffer_of_Int16Array (pcmData : list Z) : list byte :=
  flat_map bytes_of_int16 pcmData.

(** [binary += String.fromCharCode(bytes[i])] for every byte, then [btoa]. *)
Definition arrayBufferToBase64 (buffer : list byte) : string :=
  let binary :=
    fold_left (fun binary b => (binary ++ String (ascii_of_byte b) EmptyString)%string)
              buffer EmptyString in
  Base64.btoa binary.

(** [bytes[i] = binaryString.charCodeAt(i)] for every character. *)
Definition Uint8Array_of_binary (binaryString : string) : list byte :=
  map byte_of_ascii (list_ascii_of_string binaryString).

(** [atob(audioData)] copied into a [Uint8Array]; [None] when [atob] throws. *)
Definition decode_inlineData (audioData : string) : option (list byte) :=
  option_map Uint8Array_of_binary (Base64.atob audioData).

End Wire.

(** An inbound message as it arrives: the audio payload is still base64. *)
Record WireMessage := mkWireMessage {
  audioData : option string;
  wire_interrupted : bool;
  wire_outputTranscription : option string;
  wire_inputTranscription : option string
}.

Definition received (w : WireMessage) (bytes : option (list byte)) : LiveServerMessage :=
  mkServerMessage bytes (wire_interrupted w) (wire_outputTranscription w)
                  (wire_inputTranscription w).

(** [onmessage] from the raw payload on: [setIsAITalking(true)] comes
    before [atob], which throws on a string that is not base64. *)
Definition onmessage_wire (w : WireMessage) (now : Q) (s : State) : State :=
  if negb (isSessionActiveRef s) then s else
  match truthy (audioData w) with
  | None => onmessage (received w None) now s
  | Some data =>
      match Wire.decode_inlineData data with
      | None => set_isAITalking true s
      | Some bytes => onmessage (received w (Some bytes)) now s
      end
  end.

(** ** The component that uses the hook *)

(** A string is a sequence of code units below 256. *)
Module LucaBot.
Local Open Scope nat_scope.

Record Component := mkComponent { api : State; inputText : string }.

(** The white space and line terminators of [String.prototype.trim] among
    the code units below 256. *)
Definition is_space (a : ascii) : bool :=
  match N_of_ascii a with
  | 9 | 10 | 11 | 12 | 13 | 32 | 160 => true
  | _ => false
  end%N.

Fixpoint trim_start (l : list ascii) : list ascii :=
  match l with
  | a :: l' => if is_space a then trim_start l' else l
  | [] => []
  end.

Definition trim (s : string) : string :=
  string_of_list_ascii (rev (trim_start (rev (trim_start (list_ascii_of_string s))))).

(** [if (isConnected) disconnect(); else connect();] *)
Definition handleToggle (b : Component) : Component :=
  if isConnected (api b)
  then mkComponent (disconnect (api b)) (inputText b)
  else mkComponent (connect (api b)) (inputText b).

(** [if (inputText.trim() && isConnected) { sendTextMessage(inputText.trim());
    setInputText(''); }] *)
Definition handleSendText (send_ok : bool) (b : Component) : Component :=
  match trim (inputText b) with
  | EmptyString => b
  | text =>
      if isConnected (api b)
      then mkComponent (sendTextMessage text send_ok (api b)) EmptyString
      else b
  end.

End LucaBot.

(** ** More vocabulary *)

(** The message of a transcription fragment: none for a missing or empty
    text. *)
Definition fragment (r : Role) (text : option string) : list Message :=
  match text with
  | Some (String a t) => [mkMessage r (String a t)]
  | Some EmptyString | None => []
  end.

(** The messages an inbound message asks for: the model fragment first,
    then the user fragment. *)
Definition transcripts (m : LiveServerMessage) : list Message :=
  fragment model (outputTranscription m) ++ fragment user (inputTranscription m).

Definition in_int16 (v : Z) : Prop := (-32767 <= v <= 32767)%Z.

(** Every audio chunk in a log carries samples a 16-bit sample can hold. *)
Definition media_in_range (l : list Call) : Prop :=
  Forall (fun c => match c with
                   | send_media _ pcm => Forall in_int16 pcm
                   | _ => True
                   end) l.

(** The number of samples of a frame, as a number. *)
Definition frame_length (inputData : list Q) : Q :=
  inject_Z (Z.of_nat (List.length inputData)).

(** Every handle in use was drawn from the counter. *)
Definition below {A} (n : nat) (l : list (nat * A)) : Prop :=
  Forall (fun ka => (fst ka < n)%nat) l.

Definition handles_drawn (s : State) : Prop :=
  below (fresh s) (tasks s) /\ below (fresh s) (sessions s).

(** The events of a connection attempt that succeeds: invocation [k] gets
    its module, the stream [st], the session's onopen and the session. *)
Definition connects (k : SessionId) (st : StreamId) : list Event :=
  [ev_connect; ev_addModule k true; ev_getUserMedia k (Some st); ev_open k;
   ev_session k true].

Definition connect_failed : string :=
  "Could not access microphone or connect to API."%string.

(** What the catch block of connect() leaves behind. *)
Definition aborted (s s' : State) : Prop :=
  error s' = Some connect_failed /\
  isConnectingRef s' = false /\ isSessionActiveRef s' = false /\
  workletNodeRef s' = None /\ audioContextRef s' = None /\ streamRef s' = None /\
  isAITalking s' = false /\ isUserTalking s' = false /\ nextStartTimeRef s' = 0 /\
  log s' = log s ++ teardown_calls s /\
  isConnected s' = isConnected s /\ sessionRef s' = sessionRef s /\
  messages s' = messages s.

(** * Proofs *)

Arguments without : simpl never.
Arguments teardown_calls : simpl never.
Arguments detached : simpl never.
Arguments sends : simpl never.
Arguments Talk.rms_exceeds : simpl never.
Arguments Pcm.pcm_frame : simpl never.
Arguments Qle_bool : simpl never.
Arguments Qmax : simpl never.
Arguments Qplus : simpl never.
Arguments Qminus : simpl never.
Arguments delete : simpl nomatch.
Arguments lookup : simpl nomatch.
Arguments adjust : simpl nomatch.
Arguments Nat.add : simpl nomatch.
Arguments Nat.leb : simpl nomatch.

Ltac break_state s :=
  destruct s as [co ai us mg er se ac cg ctx st nx wn ut po tm ck fr tk ss md lg].

(** Case analysis on the innermost scrutinee first. *)
Ltac split_matches :=
  repeat match goal with
         | |- context [match ?x with _ => _ end] =>
             lazymatch x with
             | context [match _ with _ => _ end] => fail
             | _ => destruct x eqn:?; cbn
             end
         end.

Ltac unfold_hook :=
  unfold step, status_of, set_status, connect, connect_addModule, connect_getUserMedia,
    connect_session, connect_catch, finish, disconnect, onopen, onclose, onerror,
    onmessage, schedule_audio, append_message, source_onended, sendTextMessage,
    worklet_onmessage, userTalking_timeout, setTimeout_userTalking, clearTimeout,
    detach_capture, close_session, emit.

(** ** Lists of handles *)

Lemma without_idem n l : without n (without n l) = without n l.
Proof.
  unfold without. induction l as [|m l IH]; simpl; [reflexivity|].
  destruct (Nat.eqb n m) eqn:E; simpl; [assumption|].
  rewrite E. simpl. now rewrite IH.
Qed.

Lemma without_not_In n l : ~ In n (without n l).
Proof.
  unfold without. intros H. apply filter_In in H. destruct H as [_ H].
  now rewrite Nat.eqb_refl in H.
Qed.

Lemma delete_tracked id (tm : list (TimerId * nat)) id' due :
  tm = [(id', due)] -> Some id = Some id' -> delete id tm = [].
Proof.
  intros -> [= ->]. unfold delete. now rewrite Nat.eqb_refl.
Qed.

Lemma sends_app l1 l2 : sends (l1 ++ l2) = sends l1 ++ sends l2.
Proof. apply filter_app. Qed.

Lemma sends_teardown s : sends (teardown_calls s) = [].
Proof.
  unfold teardown_calls.
  destruct (workletNodeRef s), (audioContextRef s), (streamRef s); reflexivity.
Qed.

Lemma segments_app l1 l2 : segments (l1 ++ l2) = segments l1 ++ segments l2.
Proof. unfold segments. apply flat_map_app. Qed.

(** ** stopAudio in closed form *)

Lemma stopAudio_eq s :
  stopAudio s =
  mkState (isConnected s) false false (messages s) (error s) (sessionRef s) false
          (isConnectingRef s) None None 0 None (userTalkingTimeoutRef s)
          (detached s) (timers s) (clock s) (fresh s) (tasks s) (sessions s)
          (modules s) (log s ++ teardown_calls s).
Proof.
  break_state s. unfold teardown_calls, detached.
  destruct wn, ctx, st; cbn; rewrite ?app_nil_r, <- ?app_assoc; reflexivity.
Qed.

Ltac run_hook :=
  unfold_hook; cbn; split_matches; rewrite ?stopAudio_eq; cbn.

Ltac no_sends := rewrite ?sends_app, ?sends_teardown, ?app_nil_r; try reflexivity.

(** ** PCM conversion *)

Module PcmFacts.
Import Pcm.

Lemma clamp_high x : 1 <= x -> clamp x = 1.
Proof.
  intros H. unfold clamp, Qmin, Qmax, GenericMinMax.gmin, GenericMinMax.gmax.
  destruct (1 ?= x) eqn:E.
  - reflexivity.
  - reflexivity.
  - rewrite <- Qgt_alt in E. lra.
Qed.

Lemma clamp_low x : x <= -1 -> clamp x = -1.
Proof.
  intros H. unfold clamp, Qmin, Qmax, GenericMinMax.gmin, GenericMinMax.gmax.
  destruct (1 ?= x) eqn:E.
  - apply Qeq_alt in E. lra.
  - rewrite <- Qlt_alt in E. lra.
  - destruct (-1 ?= x) eqn:E2; try reflexivity.
    rewrite <- Qlt_alt in E2. lra.
Qed.

Lemma clamp_inside x : -1 < x -> x < 1 -> clamp x = x.
Proof.
  intros H1 H2. unfold clamp, Qmin, Qmax, GenericMinMax.gmin, GenericMinMax.gmax.
  destruct (1 ?= x) eqn:E.
  - apply Qeq_alt in E. lra.
  - rewrite <- Qlt_alt in E. lra.
  - destruct (-1 ?= x) eqn:E2; try reflexivity.
    + apply Qeq_alt in E2. lra.
    + rewrite <- Qgt_alt in E2. lra.
Qed.


Lemma clamp_range x : -1 <= clamp x <= 1.
Proof.
  destruct (Qlt_le_dec x 1) as [H1|H1].
  - destruct (Qlt_le_dec (-1) x) as [H2|H2].
    + rewrite clamp_inside by assumption. lra.
    + rewrite clamp_low by assumption. lra.
  - rewrite clamp_high by assumption. lra.
Qed.

Lemma trunc_bounds (q : Q) (a b : Z) :
  (a <= 0 <= b)%Z -> inject_Z a <= q <= inject_Z b -> (a <= trunc q <= b)%Z.
Proof.
  intros Hab [Ha Hb]. destruct q as [n d]. unfold trunc, Qle, inject_Z in *. simpl in *.
  split.
  - apply Z.quot_le_lower_bound; lia.
  - apply Z.quot_le_upper_bound; lia.
Qed.

Lemma ToInt16_small q : (-32768 <= trunc q <= 32767)%Z -> ToInt16 q = trunc q.
Proof.
  intros H. unfold ToInt16. cbv zeta.
  destruct (32768 <=? trunc q mod 65536)%Z eqn:E.
  - apply Z.leb_le in E. Z.div_mod_to_equations. lia.
  - apply Z.leb_gt in E. Z.div_mod_to_equations. lia.
Qed.


Lemma scaled_bounds x : (-32767 <= trunc (clamp x * inject_Z 32767) <= 32767)%Z.
Proof.
  apply trunc_bounds; [lia|]. pose proof (clamp_range x) as [H1 H2].
  change (inject_Z (-32767)) with (-32767 # 1). change (inject_Z 32767) with (32767 # 1).
  split; nra.
Qed.

Lemma pcm_sample_trunc x : pcm_sample x = trunc (clamp x * inject_Z 32767).
Proof.
  unfold pcm_sample. apply ToInt16_small. pose proof (scaled_bounds x). lia.
Qed.


End PcmFacts.


(** ** Playback scheduling *)

Lemma onmessage_audio_chunk s m now c :
  isSessionActiveRef s = true -> audioContextRef s = Some c -> decodable m = true ->
  inlineData m <> None ->
  onmessage m now s =
    let start := Qmax now (nextStartTimeRef s) in
    let s := s |> set_isAITalking true
               |> emit (source_start start (duration_of m) (samples_of m))
               |> set_nextStartTimeRef (start + duration_of m) in
    let s := if interrupted m
             then s |> set_nextStartTimeRef 0 |> set_isAITalking false else s in
    s |> append_message model (outputTranscription m)
      |> append_message user (inputTranscription m).
Proof.
  intros Ha Hc Hd Hn. break_state s. destruct m as [d i o u]. cbn in *. subst.
  destruct d as [bytes|]; [|congruence].
  unfold decodable, well_formed in Hd. cbn in Hd.
  apply andb_true_iff in Hd. destruct Hd as [He Hl].
  destruct bytes as [|b1 [|b2 rest]]; try discriminate.
  unfold onmessage, schedule_audio, duration_of, samples_of.
  cbn [negb isSessionActiveRef set_isAITalking inlineData].
  rewrite <- Nat.negb_even, He. reflexivity.
Qed.

Lemma audio_chunk_decodable m :
  audio_chunk m = true ->
  decodable m = true /\ inlineData m <> None /\ interrupted m = false.
Proof.
  unfold audio_chunk, decodable. destruct (inlineData m); [|discriminate].
  intros H. apply andb_true_iff in H. destruct H as [H1 H2].
  apply negb_true_iff in H2. repeat split; try assumption. discriminate.
Qed.

Lemma onmessage_chunk_effects s m now c :
  isSessionActiveRef s = true -> audioContextRef s = Some c -> audio_chunk m = true ->
  let s' := onmessage m now s in
  let start := Qmax now (nextStartTimeRef s) in
  isSessionActiveRef s' = true /\ audioContextRef s' = Some c /\
  isAITalking s' = true /\
  nextStartTimeRef s' = start + duration_of m /\
  log s' = log s ++ [source_start start (duration_of m) (samples_of m)].
Proof.
  intros Ha Hc Hm. destruct (audio_chunk_decodable m Hm) as (Hd & Hn & Hi).
  cbv zeta. rewrite (onmessage_audio_chunk s m now c Ha Hc Hd Hn). cbv zeta.
  rewrite Hi. unfold append_message.
  break_state s. cbn in Ha, Hc. subst.
  destruct (truthy (outputTranscription m)), (truthy (inputTranscription m));
    cbn; repeat split; reflexivity.
Qed.

Lemma onmessage_interrupted s m now :
  isSessionActiveRef s = true -> interrupted m = true -> decodable m = true ->
  let s' := onmessage m now s in
  nextStartTimeRef s' = 0 /\ isAITalking s' = false /\
  isSessionActiveRef s' = true /\ audioContextRef s' = audioContextRef s.
Proof.
  intros Ha Hi Hd. cbv zeta.
  destruct (inlineData m) as [bytes|] eqn:Eb.
  - destruct (audioContextRef s) as [c|] eqn:Ec.
    + rewrite (onmessage_audio_chunk s m now c Ha Ec Hd) by congruence.
      cbv zeta. rewrite Hi. unfold append_message.
      break_state s. cbn in Ha, Ec. subst.
      destruct (truthy (outputTranscription m)), (truthy (inputTranscription m));
        cbn; repeat split; reflexivity.
    + unfold decodable, well_formed in Hd. rewrite Eb in Hd.
      apply andb_true_iff in Hd. destruct Hd as [He _].
      unfold onmessage, schedule_audio. rewrite Ha, Eb, Hi. cbn [negb].
      break_state s. cbn in Ha, Ec. subst.
      cbn [set_isAITalking audioContextRef]. rewrite <- Nat.negb_even, He. cbn [negb].
      unfold append_message.
      destruct (truthy (outputTranscription m)), (truthy (inputTranscription m));
        cbn; repeat split; reflexivity.
  - unfold onmessage. rewrite Ha, Eb, Hi. cbn [negb]. unfold append_message.
    break_state s. cbn in Ha. subst.
    destruct (truthy (outputTranscription m)), (truthy (inputTranscription m));
      cbn; repeat split; reflexivity.
Qed.

Lemma duration_nonneg m : 0 <= duration_of m.
Proof. unfold duration_of, Qle. simpl. lia. Qed.

Lemma arrivals_nonneg ms : Forall (fun c => 0 <= snd c) (arrivals ms).
Proof.
  unfold arrivals. apply Forall_forall. intros c Hc. apply in_map_iff in Hc.
  destruct Hc as (mc & <- & _). cbn. apply duration_nonneg.
Qed.

Lemma timeline_length next chunks :
  List.length (timeline next chunks) = List.length chunks.
Proof.
  revert next. induction chunks as [|[now d] r IH]; intros next; cbn; [reflexivity|].
  now rewrite IH.
Qed.

Lemma timeline_adjacent next chunks i now d a b :
  nth_error chunks (S i) = Some (now, d) ->
  nth_error (timeline next chunks) i = Some a ->
  nth_error (timeline next chunks) (S i) = Some b ->
  b = (Qmax now (fst a + snd a), d).
Proof.
  revert next i. induction chunks as [|[now0 d0] r IH]; intros next i Hc Ha Hb.
  - discriminate.
  - destruct i as [|i].
    + cbn in Ha. injection Ha as <-. cbn in Hc, Hb.
      destruct r as [|[now1 d1] r]; [discriminate|].
      cbn in Hc, Hb. injection Hc as -> ->. injection Hb as <-. reflexivity.
    + cbn in Hc, Ha, Hb. eapply IH; eassumption.
Qed.

Lemma timeline_after next chunks j b :
  Forall (fun c => 0 <= snd c) chunks ->
  nth_error (timeline next chunks) j = Some b -> next <= fst b.
Proof.
  revert next j. induction chunks as [|[now d] r IH]; intros next j Hd Hb.
  - destruct j; discriminate.
  - inversion Hd as [|? ? Hd0 Hr]; subst. cbn in Hd0. destruct j as [|j].
    + cbn in Hb. injection Hb as <-. cbn. apply Q.le_max_r.
    + cbn in Hb. apply IH in Hb; [|assumption].
      pose proof (Q.le_max_r now next). lra.
Qed.

Lemma timeline_no_overlap next chunks i j a b :
  Forall (fun c => 0 <= snd c) chunks -> (i < j)%nat ->
  nth_error (timeline next chunks) i = Some a ->
  nth_error (timeline next chunks) j = Some b ->
  fst a + snd a <= fst b.
Proof.
  revert next i j. induction chunks as [|[now d] r IH]; intros next i j Hd Hij Ha Hb.
  - destruct i; discriminate.
  - inversion Hd as [|? ? Hd0 Hr]; subst. destruct j as [|j]; [lia|].
    cbn in Hb. destruct i as [|i].
    + cbn in Ha. injection Ha as <-. cbn. eapply timeline_after; eassumption.
    + cbn in Ha.
      apply (IH (Qmax now next + d) i j); [assumption | lia | assumption | assumption].
Qed.

Lemma play_timeline s c ms :
  isSessionActiveRef s = true -> audioContextRef s = Some c ->
  forallb (fun mc => audio_chunk (fst mc)) ms = true ->
  segments (log (play s ms))
    = segments (log s) ++ timeline (nextStartTimeRef s) (arrivals ms) /\
  forall i m now, nth_error ms i = Some (m, now) ->
    let free := nextStartTimeRef (play s (firstn i ms)) in
    nth_error (timeline (nextStartTimeRef s) (arrivals ms)) i
      = Some (Qmax now free, duration_of m) /\
    nextStartTimeRef (play s (firstn (S i) ms)) = Qmax now free + duration_of m.
Proof.
  revert s. induction ms as [|[m0 now0] ms IH]; intros s Ha Hc Hall.
  - split; [cbn; now rewrite app_nil_r|]. intros [|i] m now H; discriminate.
  - cbn in Hall. apply andb_true_iff in Hall. destruct Hall as [Hm Hall].
    destruct (onmessage_chunk_effects s m0 now0 c Ha Hc Hm) as (Ha' & Hc' & _ & Hn' & Hl').
    cbv zeta in *. destruct (IH _ Ha' Hc' Hall) as [IH1 IH2].
    split.
    + change (play s ((m0, now0) :: ms)) with (play (onmessage m0 now0 s) ms).
      rewrite IH1, Hl', segments_app, Hn', <- app_assoc. reflexivity.
    + intros [|i] m now H.
      * cbn in H. injection H as -> ->. cbn. split; [reflexivity|]. assumption.
      * cbn in H. specialize (IH2 i m now H). cbv zeta in IH2.
        change (firstn (S (S i)) ((m0, now0) :: ms)) with ((m0, now0) :: firstn (S i) ms).
        change (firstn (S i) ((m0, now0) :: ms)) with ((m0, now0) :: firstn i ms).
        change (play s ((m0, now0) :: ?l)) with (play (onmessage m0 now0 s) l).
        cbn [arrivals map timeline fst snd nth_error]. rewrite <- Hn'. exact IH2.
Qed.

(** C1: for every sequence of inbound audio chunks scheduled on an active
    session with no interruption signal, segment i starts at
    max(outputClock.now(), nextFreeTime) read when it is scheduled,
    nextFreeTime becomes start + duration at once, a chunk that arrives
    before the clock passes nextFreeTime starts exactly where the previous
    segment ends, and no two segments overlap. *)
Theorem playback_segments_back_to_back (s : State) (c : CtxId)
        (ms : list (LiveServerMessage * Q)) :
  isSessionActiveRef s = true -> audioContextRef s = Some c ->
  forallb (fun mc => audio_chunk (fst mc)) ms = true ->
  let free i := nextStartTimeRef (play s (firstn i ms)) in
  let segs := timeline (nextStartTimeRef s) (arrivals ms) in
  segments (log (play s ms)) = segments (log s) ++ segs /\
  List.length segs = List.length ms /\
  (forall i m now, nth_error ms i = Some (m, now) ->
     nth_error segs i = Some (Qmax now (free i), duration_of m) /\
     free (S i) = Qmax now (free i) + duration_of m) /\
  (forall i m now a b, nth_error ms (S i) = Some (m, now) ->
     nth_error segs i = Some a -> nth_error segs (S i) = Some b ->
     now <= fst a + snd a -> fst b == fst a + snd a) /\
  (forall i j a b, (i < j)%nat ->
     nth_error segs i = Some a -> nth_error segs j = Some b ->
     fst a + snd a <= fst b).
Proof.
  intros Ha Hc Hall. cbv zeta.
  destruct (play_timeline s c ms Ha Hc Hall) as [H1 H2].
  split; [exact H1|]. split.
  { rewrite timeline_length. unfold arrivals. apply length_map. }
  split; [exact H2|]. split.
  - intros i m now a b Hm Hsa Hsb Hle.
    assert (Hc' : nth_error (arrivals ms) (S i) = Some (now, duration_of m)).
    { unfold arrivals. rewrite nth_error_map, Hm. reflexivity. }
    rewrite (timeline_adjacent _ _ _ _ _ _ _ Hc' Hsa Hsb). cbn.
    apply Q.max_r. assumption.
  - intros i j a b Hij Hsa Hsb.
    eapply timeline_no_overlap; try eassumption. apply arrivals_nonneg.
Qed.

(** Three chunks on the connected session: the first arrives at 1/10 s on
    an empty timeline, the second while the first still plays, the third
    after a pause. *)
Lemma playback_segments_back_to_back_witness :
  let ms := [(chunk, 1 # 10); (chunk, 1 # 10); (chunk, 1)] in
  isSessionActiveRef connected = true /\ audioContextRef connected = Some 0%nat /\
  forallb (fun mc => audio_chunk (fst mc)) ms = true /\
  segments (log (play connected ms))
    = segments (log connected) ++ timeline (nextStartTimeRef connected) (arrivals ms).
Proof.
  cbv zeta.
  split; [reflexivity|]. split; [reflexivity|]. split; [reflexivity|].
  exact (proj1 (playback_segments_back_to_back connected 0%nat
                  [(chunk, 1 # 10); (chunk, 1 # 10); (chunk, 1)]
                  eq_refl eq_refl eq_refl)).
Defined.

(** C2, amended: an inbound message that carries the interrupted flag and
    is handled to its end (activeFlag true, audio payload, if any,
    decodable) resets nextFreeTime to zero and sets assistantTalking to
    false, so that the next scheduled segment starts at
    max(outputClock.now(), 0), which is outputClock.now(). *)
Theorem interruption_resets_timeline (s : State) (m : LiveServerMessage) (now : Q) :
  isSessionActiveRef s = true -> interrupted m = true -> decodable m = true ->
  let s' := onmessage m now s in
  nextStartTimeRef s' = 0 /\ isAITalking s' = false /\
  forall c m2 now2, audioContextRef s' = Some c -> audio_chunk m2 = true ->
    log (onmessage m2 now2 s')
      = log s' ++ [source_start (Qmax now2 0) (duration_of m2) (samples_of m2)] /\
    (0 <= now2 -> Qmax now2 0 == now2).
Proof.
  intros Ha Hi Hd. cbv zeta.
  destruct (onmessage_interrupted s m now Ha Hi Hd) as (Hn & Hai & Ha' & Hc').
  cbv zeta in *. split; [assumption|]. split; [assumption|].
  intros c m2 now2 Hc Hm2.
  destruct (onmessage_chunk_effects _ m2 now2 c Ha' Hc Hm2) as (_ & _ & _ & _ & Hl).
  cbv zeta in Hl. rewrite Hn in Hl. split; [exact Hl|].
  intros H0. apply Q.max_l. assumption.
Qed.

(** A chunk is playing when the barge-in arrives. *)
Lemma interruption_resets_timeline_witness :
  let s := onmessage chunk (1 # 10) connected in
  isSessionActiveRef s = true /\ interrupted barge_in = true /\
  decodable barge_in = true /\ isAITalking s = true /\
  nextStartTimeRef (onmessage barge_in (1 # 5) s) = 0 /\
  isAITalking (onmessage barge_in (1 # 5) s) = false.
Proof.
  cbv zeta.
  split; [reflexivity|]. split; [reflexivity|]. split; [reflexivity|].
  split; [reflexivity|].
  pose proof (interruption_resets_timeline (onmessage chunk (1 # 10) connected)
                barge_in (1 # 5) eq_refl eq_refl eq_refl) as H.
  cbv zeta in H. exact (conj (proj1 H) (proj1 (proj2 H))).
Defined.

(** C2 as stated fails: the interrupted flag is read after the audio
    payload has been decoded.  While a chunk is playing, a message with the
    flag and a payload of three bytes makes the [Int16Array] constructor
    throw; the handler ends there, nextFreeTime keeps its value and
    assistantTalking stays true. *)
Lemma interrupted_flag_lost_with_undecodable_audio :
  let s := onmessage chunk (1 # 10) connected in
  let m := mkServerMessage (Some [x00; x40; x00]) true None None in
  let s' := onmessage m (1 # 5) s in
  (isSessionActiveRef s = true /\ status_of 1%nat s = Some Open /\
   interrupted m = true /\ decodable m = false) /\
  (nextStartTimeRef s' = nextStartTimeRef s /\ 0 < nextStartTimeRef s' /\
   isAITalking s' = true) /\
  ~ (nextStartTimeRef s' == 0 /\ isAITalking s' = false).
Proof.
  cbv zeta. split; [|split].
  - repeat split; reflexivity.
  - repeat split; reflexivity.
  - intros [_ H]. vm_compute in H. discriminate.
Qed.

(** ** Talk activity detection *)

Lemma step_keeps_timers s e :
  detector_event e = false ->
  timers (step s e) = timers s /\
  userTalkingTimeoutRef (step s e) = userTalkingTimeoutRef s /\
  clock (step s e) = clock s.
Proof.
  intros He.
  destruct e as [| | | | | | |? [[bytes|] i o u] ?| | | | | |]; try discriminate;
    clear He; break_state s.
  all: run_hook; repeat split; reflexivity.
Qed.

Lemma step_keeps_userTalking s e :
  quiet e = true -> detector_event e = false ->
  isUserTalking (step s e) = isUserTalking s.
Proof.
  intros Hq He.
  destruct e as [| | |? [|]|? ?|? [|]|? |? [[bytes|] i o u] ?| | | | | |];
    try discriminate; clear Hq He; break_state s.
  all: run_hook; reflexivity.
Qed.

Lemma worklet_quiet_frame s inputData ok :
  Talk.rms_exceeds inputData = false ->
  let s' := worklet_onmessage inputData ok s in
  timers s' = timers s /\ userTalkingTimeoutRef s' = userTalkingTimeoutRef s /\
  clock s' = clock s /\ isUserTalking s' = isUserTalking s.
Proof.
  intros Hq. cbv zeta. break_state s. unfold worklet_onmessage. rewrite Hq.
  run_hook; repeat split; reflexivity.
Qed.

Lemma worklet_loud_frame s k inputData ok :
  sessionRef s = Some k -> isSessionActiveRef s = true ->
  Talk.rms_exceeds inputData = true ->
  let s' := worklet_onmessage inputData ok s in
  isUserTalking s' = true /\
  timers s' = match userTalkingTimeoutRef s with
              | Some id => delete id (timers s)
              | None => timers s
              end ++ [(fresh s, (clock s + Talk.decay_ms)%nat)] /\
  userTalkingTimeoutRef s' = Some (fresh s) /\
  clock s' = clock s.
Proof.
  intros Hs Ha Hq. cbv zeta. break_state s. cbn in Hs, Ha. subst.
  unfold worklet_onmessage. rewrite Hq.
  run_hook; repeat split; reflexivity.
Qed.

Lemma step_timers_tracked s e : timers_tracked s -> timers_tracked (step s e).
Proof.
  intros Ht. destruct (detector_event e) eqn:Ed.
  - destruct e; try discriminate; cbn [step].
    + (* a frame *)
      destruct (mem n (port_onmessage s)); [|assumption].
      destruct (Talk.rms_exceeds inputData) eqn:Hq.
      * destruct (sessionRef s) as [k|] eqn:Hs;
          [|unfold worklet_onmessage; rewrite Hs; assumption].
        destruct (isSessionActiveRef s) eqn:Ha;
          [|unfold worklet_onmessage; rewrite Hs, Ha; assumption].
        destruct (worklet_loud_frame s k inputData send_ok Hs Ha Hq) as (_ & Htm & Hr & _).
        cbv zeta in *. right. exists (fresh s), (clock s + Talk.decay_ms)%nat.
        split; [|assumption]. rewrite Htm.
        destruct Ht as [Ht|(id & due & Ht & Hid)].
        -- rewrite Ht. destruct (userTalkingTimeoutRef s); reflexivity.
        -- rewrite Hid. rewrite (delete_tracked id (timers s) id due Ht eq_refl). reflexivity.
      * destruct (worklet_quiet_frame s inputData send_ok Hq) as (Htm & Hr & _).
        cbv zeta in *. unfold timers_tracked. rewrite Htm, Hr. assumption.
    + (* a timeout *)
      destruct (lookup id (timers s)) as [due|] eqn:Hl; [|assumption].
      destruct (due <=? clock s)%nat; [|assumption].
      left. destruct Ht as [Ht|(id' & due' & Ht & Hid)].
      * rewrite Ht in Hl. discriminate.
      * break_state s. cbn in *. subst. unfold lookup in Hl. unfold delete.
        destruct (Nat.eqb id id'); [reflexivity|discriminate].
    + (* the clock *)
      destruct s. exact Ht.
  - destruct (step_keeps_timers s e Ed) as (Htm & Hr & _).
    unfold timers_tracked. rewrite Htm, Hr. assumption.
Qed.

Lemma run_timers_tracked es : forall s, timers_tracked s -> timers_tracked (run s es).
Proof.
  induction es as [|e es IH]; intros s Ht; [assumption|].
  cbn. apply IH. now apply step_timers_tracked.
Qed.

Lemma reachable_timers_tracked es : timers_tracked (run initial es).
Proof. apply run_timers_tracked. now left. Qed.

Lemma step_decaying id due s e :
  quiet e = true -> decaying id due s -> decaying id due (step s e).
Proof.
  intros Hq Hd. destruct (detector_event e) eqn:Ed.
  - destruct e; try discriminate; cbn [step].
    + cbn in Hq. apply negb_true_iff in Hq.
      destruct (mem n (port_onmessage s)); [|assumption].
      destruct (worklet_quiet_frame s inputData send_ok Hq) as (Htm & _ & Hc & Hu).
      cbv zeta in *. unfold decaying. rewrite Htm, Hc, Hu. assumption.
    + destruct (lookup id0 (timers s)) as [due0|] eqn:Hl; [|assumption].
      destruct (due0 <=? clock s)%nat eqn:Hle; [|assumption].
      destruct Hd as [[Ht Hu]|[Ht _]]; [|rewrite Ht in Hl; discriminate].
      right. break_state s. cbn in *. subst. unfold lookup in Hl. unfold delete.
      destruct (Nat.eqb id0 id); [|discriminate].
      injection Hl as ->. apply Nat.leb_le in Hle. repeat split; [assumption].
    + destruct s. unfold decaying in *. cbn in *.
      destruct Hd as [Hd|(Ht & Hc & Hu)]; [left; assumption|right].
      repeat split; try assumption. lia.
  - destruct (step_keeps_timers s e Ed) as (Htm & _ & Hc).
    pose proof (step_keeps_userTalking s e Hq Ed) as Hu.
    unfold decaying. rewrite Htm, Hc, Hu. assumption.
Qed.

Lemma run_decaying id due es :
  forall s, forallb quiet es = true -> decaying id due s -> decaying id due (run s es).
Proof.
  induction es as [|e es IH]; intros s Hq Hd; [assumption|].
  cbn in Hq. apply andb_true_iff in Hq. destruct Hq as [Hq Hqs].
  cbn. apply IH; [assumption|]. now apply step_decaying.
Qed.

(** C5, amended: in any state the hook can reach, a frame whose
    root-mean-square energy exceeds the threshold, handled by the capture
    callback while a session handle is held and the activeFlag is true,
    sets userTalking at once and leaves exactly one pending timeout, due
    500 ms later; as long as no further such frame arrives and nothing
    tears the audio down (disconnect(), onclose, onerror, a failing step of
    connect()), userTalking stays true until 500 ms have elapsed, is false
    only after that, and the timeout that comes due sets it to false. *)
Theorem userTalking_decays_after_500ms
        (before : list Event) (n : NodeId) (inputData : list Q) (ok : bool) :
  let s := run initial before in
  mem n (port_onmessage s) = true -> sessionRef s <> None ->
  isSessionActiveRef s = true -> Talk.rms_exceeds inputData = true ->
  let s1 := step s (ev_frame n inputData ok) in
  let due := (clock s + 500)%nat in
  isUserTalking s1 = true /\
  timers s1 = [(fresh s, due)] /\ userTalkingTimeoutRef s1 = Some (fresh s) /\
  forall es, forallb quiet es = true ->
    let s2 := run s1 es in
    decaying (fresh s) due s2 /\
    ((clock s2 < due)%nat -> isUserTalking s2 = true) /\
    (isUserTalking s2 = false -> (due <= clock s2)%nat) /\
    (timers s2 = [(fresh s, due)] -> (due <= clock s2)%nat ->
     isUserTalking (step s2 (ev_timeout (fresh s))) = false).
Proof.
  cbv zeta. intros Hm Hs Ha Hq.
  destruct (sessionRef (run initial before)) as [k|] eqn:Hk; [clear Hs|congruence].
  cbn [step]. rewrite Hm.
  destruct (worklet_loud_frame _ k inputData ok Hk Ha Hq) as (Hu & Htm & Hr & Hc).
  cbv zeta in *.
  assert (Htm' : timers (worklet_onmessage inputData ok (run initial before))
                 = [(fresh (run initial before), (clock (run initial before) + 500)%nat)]).
  { rewrite Htm. destruct (reachable_timers_tracked before) as [Ht|(id & due & Ht & Hid)].
    - rewrite Ht. destruct (userTalkingTimeoutRef (run initial before)); reflexivity.
    - rewrite Hid, (delete_tracked id _ id due Ht eq_refl). reflexivity. }
  split; [assumption|]. split; [assumption|]. split; [assumption|].
  intros es Hes.
  pose proof (run_decaying (fresh (run initial before))
                (clock (run initial before) + 500)%nat es _ Hes
                (or_introl (conj Htm' Hu))) as Hd.
  set (s2 := run _ es) in *. split; [exact Hd|]. split; [|split].
  - intros Hlt. destruct Hd as [[_ H]|(_ & H & _)]; [assumption|lia].
  - intros Hf. destruct Hd as [[_ H]|(_ & H & _)]; [congruence|assumption].
  - intros Ht Hle. cbn [step]. rewrite Ht. unfold lookup. rewrite Nat.eqb_refl.
    apply Nat.leb_le in Hle. rewrite Hle. destruct s2. reflexivity.
Qed.

(** A loud frame on the connected session, 499 ms of silence, one more
    millisecond, and the timeout. *)
Lemma userTalking_decays_after_500ms_witness :
  let before := [ev_connect; ev_addModule 1%nat true; ev_getUserMedia 1%nat (Some 7%nat);
                 ev_open 1%nat; ev_session 1%nat true] in
  let s1 := step (run initial before) (ev_frame 2%nat loud true) in
  mem 2%nat (port_onmessage (run initial before)) = true /\
  sessionRef (run initial before) <> None /\
  isSessionActiveRef (run initial before) = true /\
  Talk.rms_exceeds loud = true /\
  isUserTalking s1 = true /\
  isUserTalking (run s1 [ev_tick 499; ev_frame 2%nat [] true]) = true /\
  isUserTalking (run s1 [ev_tick 499; ev_tick 1; ev_timeout 3%nat]) = false.
Proof.
  cbv zeta.
  split; [reflexivity|]. split; [discriminate|]. split; [reflexivity|].
  split; [reflexivity|].
  pose proof (userTalking_decays_after_500ms
                [ev_connect; ev_addModule 1%nat true; ev_getUserMedia 1%nat (Some 7%nat);
                 ev_open 1%nat; ev_session 1%nat true]
                2%nat loud true eq_refl
                (fun H => eq_ind (Some 1%nat)
                            (fun o => match o with Some _ => True | None => False end)
                            I None H)
                eq_refl eq_refl) as H.
  cbv zeta in H. destruct H as (H1 & _ & _ & H4).
  split; [exact H1|]. split.
  - apply (proj1 (proj2 (H4 [ev_tick 499; ev_frame 2%nat [] true] eq_refl))).
    vm_compute. apply le_n.
  - apply (proj2 (proj2 (proj2 (H4 [ev_tick 499; ev_tick 1] eq_refl)))).
    + reflexivity.
    + vm_compute. apply le_n.
Defined.

(** C5 as stated fails in both halves.  A frame above the threshold that
    arrives after onopen but before the session handle is stored is dropped
    by the guard of the capture callback: userTalking is not set and no
    timeout is started.  And after a frame that did set userTalking,
    disconnect() 100 ms later clears it through stopAudio, 400 ms before
    the timeout (which stays pending). *)
Lemma loud_frame_dropped_or_cut_short :
  let early := run connecting [ev_open 1%nat] in
  let s1 := step connected (ev_frame 2%nat loud true) in
  let s2 := run s1 [ev_tick 100; ev_disconnect] in
  (Talk.rms_exceeds loud = true /\ mem 2%nat (port_onmessage early) = true /\
   sessionRef early = None /\
   isUserTalking (step early (ev_frame 2%nat loud true)) = false /\
   timers (step early (ev_frame 2%nat loud true)) = []) /\
  (isUserTalking s1 = true /\ timers s1 = [(3%nat, 500%nat)] /\ clock s1 = 0%nat /\
   clock s2 = 100%nat /\ isUserTalking s2 = false /\ timers s2 = [(3%nat, 500%nat)]) /\
  ~ (isUserTalking s2 = false -> (500 <= clock s2)%nat).
Proof.
  cbv zeta. split; [|split].
  - repeat split; reflexivity.
  - repeat split; reflexivity.
  - intros H. specialize (H eq_refl). vm_compute in H. lia.
Qed.

(** ** Teardown *)

Lemma without_all n (l : list NodeId) :
  (forall m, In m l -> Some n = Some m) -> without n l = [].
Proof.
  unfold without. induction l as [|m l IH]; intros H; [reflexivity|].
  cbn. assert (E : Some n = Some m) by (apply H; now left).
  injection E as ->. rewrite Nat.eqb_refl. cbn.
  apply IH. intros m' Hm'. apply H. now right.
Qed.

Lemma nil_of_none (l : list NodeId) :
  (forall m, In m l -> @None NodeId = Some m) -> l = [].
Proof.
  destruct l as [|m l]; [reflexivity|]. intros H.
  specialize (H m (or_introl eq_refl)). discriminate.
Qed.

Lemma disconnect_idempotent s : disconnect (disconnect s) = disconnect s.
Proof.
  break_state s. destruct se, wn, ctx, st; reflexivity.
Qed.

(** C8: disconnect() is idempotent (a second call changes nothing and
    makes no host call); in one synchronous step it sets the activeFlag to
    false, detaches the capture callback of the current worklet node,
    (no callback is left when it sat on that node), closes the session if
    one is held, releases the worklet node, the audio context and the media
    stream, resets nextFreeTime to 0 and leaves the controller idle; every capture or inbound-message callback that runs
    afterwards sees the flag and does nothing. *)
Theorem disconnect_tears_down (s : State) :
  let s' := disconnect s in
  disconnect s' = s' /\
  isSessionActiveRef s' = false /\ isConnectingRef s' = false /\
  isConnected s' = false /\ sessionRef s' = None /\
  workletNodeRef s' = None /\ audioContextRef s' = None /\ streamRef s' = None /\
  nextStartTimeRef s' = 0 /\ isAITalking s' = false /\ isUserTalking s' = false /\
  port_onmessage s' = detached s /\
  ((forall n, In n (port_onmessage s) -> workletNodeRef s = Some n) ->
   port_onmessage s' = []) /\
  log s' = log s
           ++ match sessionRef s with Some k => [session_close k] | None => [] end
           ++ teardown_calls s /\
  (forall inputData ok, worklet_onmessage inputData ok s' = s') /\
  (forall m now, onmessage m now s' = s') /\
  (forall t ok, sendTextMessage t ok s' = s').
Proof.
  cbv zeta. split; [apply disconnect_idempotent|].
  break_state s. unfold teardown_calls, detached.
  destruct se, wn, ctx, st; cbn; rewrite ?without_idem, <- ?app_assoc, ?app_nil_r; cbn;
    repeat split; try reflexivity;
    intros H; first [apply without_all | apply nil_of_none]; exact H.
Qed.

(** C9, amended: the session's onclose and onerror callbacks each run the
    teardown of disconnect() (activeFlag false, devices released, capture
    callback of the current worklet node removed, timeline reset, not
    connected, not connecting, later callbacks do nothing), differing from
    it in that they neither call close() on the session nor clear the
    session handle, which stays in sessionRef; with no handle held the
    result is that of disconnect().  onerror publishes an error message and
    onclose leaves the error as it was. *)
Theorem remote_close_and_error_tear_down (s : State) :
  let c := onclose s in
  let e := onerror s in
  c = set_sessionRef (sessionRef s) (disconnect (set_sessionRef None s)) /\
  e = set_error (Some "Connection error. Please try again."%string) c /\
  (sessionRef s = None -> c = disconnect s) /\
  isSessionActiveRef c = false /\ isConnectingRef c = false /\ isConnected c = false /\
  workletNodeRef c = None /\ audioContextRef c = None /\ streamRef c = None /\
  nextStartTimeRef c = 0 /\ isAITalking c = false /\ isUserTalking c = false /\
  port_onmessage c = detached s /\
  log c = log s ++ teardown_calls s /\
  error c = error s /\
  error e = Some "Connection error. Please try again."%string /\
  (sessionRef c = sessionRef s /\ sessionRef e = sessionRef s /\
   closes (log c) = closes (log s) /\ closes (log e) = closes (log s)) /\
  (forall k, sessionRef s = Some k ->
     sessionRef (disconnect s) = None /\
     closes (log (disconnect s)) = closes (log s) ++ [session_close k]) /\
  (forall n, workletNodeRef s = Some n ->
     port_onmessage c = without n (port_onmessage s) /\
     port_onmessage e = without n (port_onmessage s) /\
     mem n (port_onmessage c) = false) /\
  ((forall n, In n (port_onmessage s) -> workletNodeRef s = Some n) ->
   port_onmessage c = [] /\ port_onmessage e = []) /\
  (forall inputData ok, worklet_onmessage inputData ok c = c) /\
  (forall m now, onmessage m now c = c) /\
  (forall t ok, sendTextMessage t ok c = c).
Proof.
  cbv zeta.
  assert (Hm : forall n l, mem n (without n l) = false).
  { intros n l. unfold mem, without. induction l as [|m l IH]; [reflexivity|].
    cbn. destruct (Nat.eqb n m) eqn:E; cbn; [exact IH|].
    rewrite E. exact IH. }
  assert (Hc : forall l1 l2, closes (l1 ++ l2) = closes l1 ++ closes l2).
  { intros l1 l2. apply filter_app. }
  break_state s. unfold teardown_calls, detached.
  destruct se, wn, ctx, st; cbn;
    rewrite ?without_idem, ?app_nil_r, <- ?app_assoc, ?Hc; cbn;
    rewrite ?app_nil_r;
    repeat split; try reflexivity; intros; try discriminate;
    repeat match goal with
           | H : Some _ = Some _ |- _ => injection H as <-
           end;
    try reflexivity;
    first [ apply Hm | apply without_all; assumption | apply nil_of_none; assumption ].
Qed.

(** The session is lost while the assistant speaks: the node's capture
    callback is removed and the hook is disconnected, while the handle of
    the lost session stays in sessionRef. *)
Lemma remote_close_and_error_tear_down_witness :
  let s := onmessage chunk (1 # 10) connected in
  let s0 := set_sessionRef None s in
  (sessionRef s0 = None /\ onclose s0 = disconnect s0) /\
  (workletNodeRef s = Some 2%nat /\ isAITalking s = true /\
   port_onmessage (onclose s) = [] /\ port_onmessage (onerror s) = []) /\
  (sessionRef s = Some 1%nat /\ sessionRef (disconnect s) = None /\
   sessionRef (onclose s) = Some 1%nat).
Proof.
  cbv zeta.
  pose proof (remote_close_and_error_tear_down
                (set_sessionRef None (onmessage chunk (1 # 10) connected))) as H0.
  pose proof (remote_close_and_error_tear_down (onmessage chunk (1 # 10) connected)) as H.
  cbv zeta in H0, H.
  destruct H0 as (_ & _ & H0 & _).
  destruct H as (_ & _ & _ & _ & _ & _ & _ & _ & _ & _ & _ & _ & _ & _ & _ & _ &
                 (Hs & _) & Hd & Hn & _).
  split; [split; [reflexivity|exact (H0 eq_refl)]|]. split.
  - split; [reflexivity|]. split; [reflexivity|].
    destruct (Hn 2%nat eq_refl) as (Hc & He & _).
    split; [exact (eq_trans Hc eq_refl)|exact (eq_trans He eq_refl)].
  - split; [reflexivity|]. split; [exact (proj1 (Hd 1%nat eq_refl))|].
    exact (eq_trans Hs eq_refl).
Defined.

(** C9 as stated fails: the teardown of onclose and onerror is not that of
    disconnect().  On a connected hook disconnect() calls close() on the
    session and clears sessionRef; onclose and onerror do neither, and the
    resulting states differ. *)
Lemma remote_teardown_keeps_session_handle :
  (isConnected connected = true /\ sessionRef connected = Some 1%nat /\
   status_of 1%nat connected = Some Open) /\
  (sessionRef (onclose connected) = Some 1%nat /\
   sessionRef (onerror connected) = Some 1%nat /\
   sessionRef (disconnect connected) = None /\
   closes (log (onclose connected)) = [] /\ closes (log (onerror connected)) = [] /\
   closes (log (disconnect connected)) = [session_close 1%nat] /\
   sessionRef (step connected (ev_close 1%nat)) = Some 1%nat /\
   sessionRef (step connected (ev_error 1%nat)) = Some 1%nat) /\
  ~ (onclose connected = disconnect connected) /\
  ~ (set_error (error connected) (onerror connected) = disconnect connected).
Proof.
  split; [|split; [|split]].
  - repeat split; reflexivity.
  - repeat split; reflexivity.
  - intros H. apply (f_equal sessionRef) in H. vm_compute in H. discriminate.
  - intros H. apply (f_equal sessionRef) in H. vm_compute in H. discriminate.
Qed.

(** ** Text messages *)

(** C10: sendText without a session handle, while not connected, or with
    the activeFlag false changes nothing and transmits nothing; when the
    transmission throws, the message is not appended and nothing else
    changes; otherwise the text is sent and appended as a user message. *)
Theorem sendText_guarded (s : State) (t : string) :
  (sessionRef s = None \/ isConnected s = false \/ isSessionActiveRef s = false ->
   forall ok, sendTextMessage t ok s = s) /\
  sendTextMessage t false s = s /\
  (forall k, sessionRef s = Some k -> isConnected s = true -> isSessionActiveRef s = true ->
   let s' := sendTextMessage t true s in
   log s' = log s ++ [send_text k t] /\ messages s' = messages s ++ [mkMessage user t]).
Proof.
  break_state s. repeat split.
  - cbn. intros H ok. destruct se, co, ac, ok; try reflexivity;
      destruct H as [H|[H|H]]; discriminate.
  - destruct se, co, ac; reflexivity.
  - cbn in *. subst. reflexivity.
  - cbn in *. subst. reflexivity.
Qed.

Lemma sendText_guarded_witness :
  isConnected connecting = false /\
  sendTextMessage "hello" true connecting = connecting /\
  sendTextMessage "hello" false connected = connected /\
  messages (sendTextMessage "hello" true connected) = [mkMessage user "hello"].
Proof.
  split; [reflexivity|]. split; [|split].
  - exact (proj1 (sendText_guarded connecting "hello") (or_intror (or_introl eq_refl)) true).
  - exact (proj1 (proj2 (sendText_guarded connected "hello"))).
  - exact (proj2 (proj2 (proj2 (sendText_guarded connected "hello"))
                    1%nat eq_refl eq_refl eq_refl)).
Defined.

(** ** A failing send in the capture callback *)

Lemma step_inactive s e :
  isSessionActiveRef s = false -> rearms e = false ->
  isSessionActiveRef (step s e) = false /\ sends (log (step s e)) = sends (log s).
Proof.
  intros Ha He.
  destruct e as [| | | | | | |? [[bytes|] i o u] ?| | | | | |]; try discriminate;
    clear He; break_state s; cbn in Ha; subst ac.
  all: run_hook;
    try match goal with
        | H : (_ && false)%bool = true |- _ => rewrite andb_false_r in H; discriminate
        end;
    split; no_sends.
Qed.





(** ** connect() and its races with disconnect() *)

(** The entry guard: connect() changes nothing while a connection attempt
    is in progress or the hook is connected. *)
Lemma connect_guard (s : State) :
  isConnectingRef s = true \/ isConnected s = true -> connect s = s.
Proof.
  unfold connect. intros [H|H]; rewrite H; [reflexivity|].
  now rewrite orb_true_r.
Qed.

Lemma connect_guard_witness :
  isConnectingRef connecting = true /\ connect connecting = connecting /\
  isConnected connected = true /\ connect connected = connected.
Proof.
  split; [reflexivity|]. split; [exact (connect_guard connecting (or_introl eq_refl))|].
  split; [reflexivity|]. exact (connect_guard connected (or_intror eq_refl)).
Defined.

(** The check after [await sessionPromise]: when the activeFlag is false at
    that point, close() is called on the session at once and the session is
    not stored; isConnectingRef is cleared, the invocation ends, and
    sessionRef and isConnected are left as they were. *)
Lemma race_check_closes_session (s : State) (k : SessionId) (n : NodeId) :
  lookup k (tasks s) = Some (AwaitSession n) -> isSessionActiveRef s = false ->
  let s' := step s (ev_session k true) in
  log s' = log s ++ [session_close k] /\
  sessionRef s' = sessionRef s /\ isConnectingRef s' = false /\
  isSessionActiveRef s' = false /\ isConnected s' = isConnected s /\
  lookup k (tasks s') = None.
Proof.
  intros Hk Ha. cbv zeta. cbn [step]. rewrite Hk.
  assert (Hd : forall tk : list (SessionId * Stage), lookup k (delete k tk) = None).
  { induction tk as [|[k' a] tk IH]; [reflexivity|].
    unfold delete; fold (@delete Stage). destruct (Nat.eqb k k') eqn:E; [assumption|].
    unfold lookup; fold (@lookup Stage). now rewrite E. }
  break_state s. cbn in Ha. subst. unfold_hook. cbn.
  repeat split; try reflexivity. apply Hd.
Qed.

(** The session's onopen has fired, disconnect() follows, and then the
    session promise resolves. *)
Lemma race_check_closes_session_witness :
  let s := run connecting [ev_open 1%nat; ev_disconnect] in
  let s' := step s (ev_session 1%nat true) in
  lookup 1%nat (tasks s) = Some (AwaitSession 2%nat) /\ isSessionActiveRef s = false /\
  isConnected s = false /\ sessionRef s = None /\ closes (log s) = [] /\
  closes (log s') = [session_close 1%nat] /\
  sessionRef s' = None /\ isConnected s' = false /\ isConnectingRef s' = false.
Proof.
  cbv zeta. do 5 (split; [reflexivity|]).
  pose proof (race_check_closes_session (run connecting [ev_open 1%nat; ev_disconnect])
                1%nat 2%nat eq_refl eq_refl) as H.
  cbv zeta in H. destruct H as (H1 & H2 & H3 & _ & H5 & _).
  split; [exact (eq_trans (f_equal closes H1) eq_refl)|].
  split; [exact (eq_trans H2 eq_refl)|].
  split; [exact (eq_trans H5 eq_refl)|exact H3].
Defined.

(** C6 fails on the code: disconnect() is called while the session open of
    connect() is pending; the session then opens, its onopen callback sets
    the activeFlag and connected to true again, and when the promise
    resolves the check after the await finds the flag true: the session is
    stored and never closed, the hook ends connected with its audio devices
    released, and a text message is sent on that session. *)
Theorem disconnect_while_connecting_ends_open :
  let idle := step connecting ev_disconnect in
  let s := run idle [ev_open 1%nat; ev_session 1%nat true] in
  (isConnectingRef connecting = true /\ isConnected connecting = false /\
   lookup 1%nat (tasks connecting) = Some (AwaitSession 2%nat) /\
   status_of 1%nat connecting = Some Pending) /\
  (isSessionActiveRef idle = false /\ isConnectingRef idle = false /\
   isConnected idle = false /\ sessionRef idle = None) /\
  (isConnected s = true /\ isSessionActiveRef s = true /\ sessionRef s = Some 1%nat /\
   status_of 1%nat s = Some Open /\ closes (log s) = [] /\
   audioContextRef s = None /\ streamRef s = None /\ workletNodeRef s = None) /\
  sends (log (step s (ev_sendTextMessage "hello" true))) = [send_text 1%nat "hello"].
Proof.
  cbv zeta. repeat split; reflexivity.
Qed.

(** C7 fails on the code in its second half: disconnect() during a pending
    session open clears isConnectingRef, so a second connect() passes the
    entry guard while the first invocation is still suspended; both
    sessions open, the handle of the first is overwritten and nobody closes
    it: two sessions are open at once. *)
Theorem reconnect_race_opens_two_sessions :
  let idle := step connecting ev_disconnect in
  let again := run idle [ev_connect; ev_addModule 4%nat true;
                         ev_getUserMedia 4%nat (Some 8%nat)] in
  let s := run again [ev_open 1%nat; ev_session 1%nat true;
                      ev_open 4%nat; ev_session 4%nat true] in
  (isConnectingRef idle = false /\ isConnected idle = false) /\
  (lookup 1%nat (tasks again) = Some (AwaitSession 2%nat) /\
   lookup 4%nat (tasks again) = Some (AwaitSession 5%nat)) /\
  open_sessions s = [4%nat; 1%nat] /\
  sessionRef s = Some 4%nat /\ closes (log s) = [] /\
  (2 <= List.length (open_sessions s))%nat.
Proof.
  cbv zeta. repeat split; reflexivity.
Qed.

(** ** Further properties of the guards *)

(** Nothing is transmitted by an event handled while the activeFlag is
    false, whichever event it is. *)
Lemma inactive_never_sends (s : State) (e : Event) :
  isSessionActiveRef s = false -> sends (log (step s e)) = sends (log s).
Proof.
  intros Ha. destruct (rearms e) eqn:He.
  - destruct e; try discriminate; break_state s; run_hook; no_sends.
  - apply step_inactive; assumption.
Qed.

Lemma inactive_never_sends_witness :
  let s := step connected ev_disconnect in
  isSessionActiveRef s = false /\
  sends (log (step s (ev_frame 2%nat loud true))) = sends (log s).
Proof.
  cbv zeta. split; [reflexivity|].
  exact (inactive_never_sends (step connected ev_disconnect) (ev_frame 2%nat loud true)
           eq_refl).
Defined.

(** No segment is started before the reading of the output clock it was
    scheduled with. *)
Lemma segment_not_before_clock (s : State) (m : LiveServerMessage) (now : Q) :
  forall seg, In seg (segments (log (onmessage m now s))) ->
    In seg (segments (log s)) \/ now <= fst seg.
Proof.
  intros seg. break_state s. destruct m as [[bytes|] i o u].
  - unfold onmessage, schedule_audio, append_message, emit. cbn.
    split_matches; rewrite ?segments_app; cbn; intros H;
      try (left; exact H).
    all: apply in_app_or in H; destruct H as [H|[<-|[]]]; [left; exact H|right].
    all: cbn; apply Q.le_max_l.
  - unfold onmessage, append_message. cbn. split_matches; intros H; left; exact H.
Qed.

Lemma segment_not_before_clock_witness :
  let seg := (Qmax (1 # 10) 0, duration_of chunk) in
  In seg (segments (log (onmessage chunk (1 # 10) connected))) /\
  (In seg (segments (log connected)) \/ 1 # 10 <= fst seg).
Proof.
  cbv zeta. split; [left; reflexivity|].
  exact (segment_not_before_clock connected chunk (1 # 10) _ (or_introl eq_refl)).
Defined.

Lemma lookup_adjust_ne {A} (k k' : nat) (f : A -> A) (l : list (nat * A)) :
  k <> k' -> lookup k (adjust k' f l) = lookup k l.
Proof.
  intros Hne. induction l as [|[k0 a] l IH]; [reflexivity|].
  unfold adjust; fold (@adjust A). destruct (Nat.eqb k' k0) eqn:E'.
  - apply Nat.eqb_eq in E'. subst k0.
    unfold lookup; fold (@lookup A).
    destruct (Nat.eqb k k') eqn:E; [apply Nat.eqb_eq in E; contradiction|reflexivity].
  - unfold lookup; fold (@lookup A). destruct (Nat.eqb k k0); [reflexivity|exact IH].
Qed.

Lemma lookup_adjust_eq {A} (k : nat) (f : A -> A) (l : list (nat * A)) a :
  lookup k l = Some a -> lookup k (adjust k f l) = Some (f a).
Proof.
  induction l as [|[k0 b] l IH]; [discriminate|].
  unfold lookup; fold (@lookup A). unfold adjust; fold (@adjust A).
  destruct (Nat.eqb k k0) eqn:E.
  - intros [= ->]. unfold lookup; fold (@lookup A). now rewrite E.
  - intros H. unfold lookup; fold (@lookup A). rewrite E. now apply IH.
Qed.

Lemma closes_app l1 l2 : closes (l1 ++ l2) = closes l1 ++ closes l2.
Proof. apply filter_app. Qed.

Lemma closes_teardown s : closes (teardown_calls s) = [].
Proof.
  unfold teardown_calls.
  destruct (workletNodeRef s), (audioContextRef s), (streamRef s); reflexivity.
Qed.

(** Whenever a session open is pending and disconnect() is called, the
    session's onopen followed by the resolution of the promise leaves the
    hook connected with that session stored; the only session closed on
    the way is the one held before, if any. *)
Lemma pending_open_survives_disconnect (s : State) (k : SessionId) (n : NodeId) :
  lookup k (tasks s) = Some (AwaitSession n) ->
  lookup k (sessions s) = Some (mkRequest n Pending) ->
  sessionRef s <> Some k ->
  let s' := run s [ev_disconnect; ev_open k; ev_session k true] in
  isConnected s' = true /\ isSessionActiveRef s' = true /\ sessionRef s' = Some k /\
  status_of k s' = Some Open /\
  closes (log s')
    = closes (log s) ++ match sessionRef s with Some k0 => [session_close k0] | None => [] end.
Proof.
  intros Ht Hs Hne. cbv zeta.
  assert (Hs' : lookup k (sessions (disconnect s)) = Some (mkRequest n Pending)).
  { break_state s. cbn in Ht, Hs, Hne. unfold disconnect, close_session, emit, detach_capture.
    destruct se as [k0|], wn; cbn; rewrite ?stopAudio_eq; cbn; try assumption.
    all: rewrite lookup_adjust_ne; [assumption|congruence]. }
  assert (Ht' : tasks (disconnect s) = tasks s).
  { break_state s. unfold disconnect, close_session, emit, detach_capture.
    destruct se, wn; cbn; rewrite ?stopAudio_eq; reflexivity. }
  assert (Hl' : log (disconnect s)
                = log s ++ match sessionRef s with Some k0 => [session_close k0] | None => [] end
                        ++ teardown_calls s).
  { break_state s. unfold disconnect, close_session, emit, detach_capture.
    destruct se, wn; cbn; rewrite ?stopAudio_eq; cbn;
      rewrite <- ?app_assoc, ?app_nil_r; reflexivity. }
  unfold run, fold_left. cbn [step].
  remember (disconnect s) as d eqn:Hd. clear Hd.
  rewrite Hs'.
  assert (Ho : lookup k (tasks (onopen n (set_status k Open d))) = Some (AwaitSession n)).
  { break_state d. cbn in Ht'. cbn. congruence. }
  rewrite Ho.
  assert (Hss : lookup k (sessions (connect_session k true (onopen n (set_status k Open d))))
                = Some (mkRequest n Open)).
  { break_state d. cbn in Hs'. unfold_hook. cbn.
    apply (lookup_adjust_eq k (fun r => mkRequest (req_node r) Open) _ _ Hs'). }
  assert (Hlog : log (connect_session k true (onopen n (set_status k Open d))) = log d).
  { break_state d. reflexivity. }
  repeat split.
  - break_state d. reflexivity.
  - break_state d. reflexivity.
  - break_state d. reflexivity.
  - unfold status_of. rewrite Hss. reflexivity.
  - rewrite Hlog, Hl', !closes_app, closes_teardown, app_nil_r.
    destruct (sessionRef s); reflexivity.
Qed.

Lemma pending_open_survives_disconnect_witness :
  lookup 1%nat (tasks connecting) = Some (AwaitSession 2%nat) /\
  lookup 1%nat (sessions connecting) = Some (mkRequest 2%nat Pending) /\
  sessionRef connecting <> Some 1%nat /\
  isConnected (run connecting [ev_disconnect; ev_open 1%nat; ev_session 1%nat true]) = true.
Proof.
  split; [reflexivity|]. split; [reflexivity|]. split; [discriminate|].
  exact (proj1 (pending_open_survives_disconnect connecting 1%nat 2%nat eq_refl eq_refl
                  (fun H => eq_ind None
                              (fun o => match o with Some _ => False | None => True end)
                              I (Some 1%nat) H))).
Defined.

(** * The wire format of audio *)

Module Base64Facts.
Import Base64.
Local Open Scope nat_scope.

Lemma list_ind3 {A} (P : list A -> Prop) :
  P [] -> (forall a, P [a]) -> (forall a b, P [a; b]) ->
  (forall a b c r, P r -> P (a :: b :: c :: r)) -> forall l, P l.
Proof.
  intros H0 H1 H2 H3.
  assert (H : forall l, P l /\ (forall a, P (a :: l)) /\ (forall a b, P (a :: b :: l))).
  { induction l as [|c r (IH0 & IH1 & IH2)]; [now auto|].
    split; [apply IH1|]. split; [intros a; apply IH2|].
    intros a b. apply H3. exact IH0. }
  intros l. apply H.
Qed.

Lemma sextets_table :
  forallb (fun i => let n := N.of_nat i in
                    match sextet_of (char_of n) with
                    | Some m => N.eqb m n
                    | None => false
                    end
                    && negb (is_whitespace (char_of n))
                    && negb (Ascii.eqb (char_of n) pad_char))
          (seq 0 64) = true.
Proof. vm_compute. reflexivity. Qed.

Lemma char_of_facts n :
  small n ->
  sextet_of (char_of n) = Some n /\ is_whitespace (char_of n) = false /\
  Ascii.eqb (char_of n) pad_char = false.
Proof.
  intros Hn. pose proof sextets_table as H. rewrite forallb_forall in H.
  specialize (H (N.to_nat n)). cbv zeta in H. rewrite N2Nat.id in H.
  assert (Hin : In (N.to_nat n) (seq 0 64)).
  { apply in_seq. unfold small in Hn. lia. }
  specialize (H Hin). apply andb_true_iff in H. destruct H as [H H3].
  apply andb_true_iff in H. destruct H as [H1 H2].
  apply negb_true_iff in H2, H3. repeat split; try assumption.
  destruct (sextet_of (char_of n)); [|discriminate].
  apply N.eqb_eq in H1. now subst.
Qed.

Lemma N_of_ascii_bound a : (N_of_ascii a < 256)%N.
Proof. destruct a as [[] [] [] [] [] [] [] []]; vm_compute; reflexivity. Qed.

Lemma mod3_step n : S (S (S n)) mod 3 = n mod 3.
Proof. change (S (S (S n))) with (3 + n). rewrite Nat.add_comm. apply (Nat.Div0.mod_add n 1 3). Qed.

Lemma mod4_step n : S (S (S (S n))) mod 4 = n mod 4.
Proof. change (S (S (S (S n)))) with (4 + n). rewrite Nat.add_comm. apply (Nat.Div0.mod_add n 1 4). Qed.

Lemma encode_split s : encode s = map char_of (body s) ++ padding s.
Proof.
  induction s as [|a|a b|a b c r IH] using list_ind3; try reflexivity.
  cbn [encode body map app]. rewrite IH. unfold padding.
  cbn [List.length]. rewrite mod3_step. reflexivity.
Qed.

Ltac nlia := zify; Z.to_euclidean_division_equations; lia.

Ltac bound_bytes :=
  repeat match goal with
         | |- context [N_of_ascii ?a] =>
             let H := fresh in
             pose proof (N_of_ascii_bound a) as H; generalize dependent (N_of_ascii a); intros
         end.

Lemma body_small s : Forall small (body s).
Proof.
  induction s as [|a|a b|a b c r IH] using list_ind3; cbn [body]; cbv zeta.
  - constructor.
  - bound_bytes. repeat (apply Forall_cons; [unfold small; nlia|]). constructor.
  - bound_bytes. repeat (apply Forall_cons; [unfold small; nlia|]). constructor.
  - revert IH. bound_bytes. repeat (apply Forall_cons; [unfold small; nlia|]). assumption.
Qed.

Lemma ascii_of_byte_value a n : n = N_of_ascii a -> ascii_of_N n = a.
Proof. intros ->. apply ascii_N_embedding. Qed.

Lemma bytes_of_body s : bytes_of_sextets (body s) = s.
Proof.
  induction s as [|a|a b|a b c r IH] using list_ind3.
  - reflexivity.
  - cbn [body bytes_of_sextets]. cbv zeta. f_equal.
    apply ascii_of_byte_value. bound_bytes. nlia.
  - cbn [body bytes_of_sextets]. cbv zeta.
    f_equal; [|f_equal]; apply ascii_of_byte_value; bound_bytes; nlia.
  - cbn [body bytes_of_sextets]. cbv zeta. rewrite IH.
    f_equal; [|f_equal; [|f_equal]]; apply ascii_of_byte_value; bound_bytes; nlia.
Qed.

Lemma body_length s :
  List.length (body s) mod 4 <> 1 /\
  (List.length (body s) + List.length (padding s)) mod 4 = 0 /\
  (padding s <> [] -> body s <> []).
Proof.
  induction s as [|a|a b|a b c r (IH1 & IH2 & IH3)] using list_ind3.
  - vm_compute. repeat split; [discriminate|auto].
  - vm_compute. repeat split; discriminate.
  - vm_compute. repeat split; discriminate.
  - cbn [body]. cbv zeta. unfold padding in *. cbn [List.length]. rewrite mod3_step.
    rewrite mod4_step. split; [exact IH1|]. split.
    + change (S (S (S (S (List.length (body r))))) + ?x)
        with (S (S (S (S (List.length (body r) + x))))).
      rewrite mod4_step. exact IH2.
    + discriminate.
Qed.

Lemma sextets_of_body l : Forall small l -> sextets_of (map char_of l) = Some l.
Proof.
  induction 1 as [|n l Hn _ IH]; [reflexivity|].
  cbn [map sextets_of]. destruct (char_of_facts n Hn) as (-> & _). now rewrite IH.
Qed.

Lemma no_whitespace l :
  Forall small l -> forall p,
  (p = [] \/ p = [pad_char] \/ p = [pad_char; pad_char]) ->
  filter (fun a => negb (is_whitespace a)) (map char_of l ++ p) = map char_of l ++ p.
Proof.
  intros Hl p Hp. rewrite filter_app. f_equal.
  - induction Hl as [|n l Hn _ IH]; [reflexivity|].
    cbn [map filter]. destruct (char_of_facts n Hn) as (_ & -> & _). cbn. now rewrite IH.
  - destruct Hp as [->|[->| ->]]; reflexivity.
Qed.

Lemma padding_cases s :
  padding s = [] \/ padding s = [pad_char] \/ padding s = [pad_char; pad_char].
Proof.
  unfold padding. destruct (List.length s mod 3) as [|[|[|n]]]; auto.
Qed.

Lemma unpad_body l p :
  Forall small l -> (p = [] \/ p = [pad_char] \/ p = [pad_char; pad_char]) ->
  (p <> [] -> l <> []) ->
  unpad (map char_of l ++ p) = map char_of l.
Proof.
  intros Hl Hp Hne.
  assert (Hlast : forall q r, rev (map char_of l) = q :: r -> Ascii.eqb q pad_char = false).
  { intros q r Hr. assert (Hin : In q (map char_of l)).
    { apply in_rev. rewrite Hr. now left. }
    apply in_map_iff in Hin. destruct Hin as (n & <- & Hn).
    rewrite Forall_forall in Hl. apply (char_of_facts n (Hl n Hn)). }
  unfold unpad. rewrite rev_app_distr.
  destruct Hp as [->|[->| ->]].
  - cbn [rev app]. rewrite app_nil_r.
    destruct (rev (map char_of l)) as [|q [|q' r]] eqn:Hr.
    + reflexivity.
    + now rewrite (Hlast q [] eq_refl).
    + now rewrite (Hlast q (q' :: r) eq_refl).
  - cbn [rev app].
    destruct (rev (map char_of l)) as [|q r] eqn:Hr.
    + exfalso. apply Hne; [discriminate|].
      apply (f_equal (@rev ascii)) in Hr. rewrite rev_involutive in Hr.
      destruct l; [reflexivity|discriminate].
    + change (Ascii.eqb pad_char pad_char) with true. cbv iota.
      rewrite (Hlast q r eq_refl). cbv iota. change (rev r ++ [q]) with (rev (q :: r)).
      rewrite <- Hr. apply rev_involutive.
  - cbn [rev app]. change (Ascii.eqb pad_char pad_char) with true. cbv iota.
    apply rev_involutive.
Qed.

Lemma decode_encode s : decode (encode s) = Some s.
Proof.
  unfold decode. rewrite encode_split.
  rewrite (no_whitespace _ (body_small s) _ (padding_cases s)).
  destruct (body_length s) as (H1 & H2 & H3).
  rewrite length_app, length_map, H2. cbn [Nat.eqb].
  rewrite (unpad_body _ _ (body_small s) (padding_cases s)).
  2:{ intros Hp Hb. apply (H3 Hp). exact Hb. }
  rewrite length_map.
  destruct (List.length (body s) mod 4 =? 1) eqn:E.
  - apply Nat.eqb_eq in E. contradiction.
  - rewrite (sextets_of_body _ (body_small s)). cbn [option_map].
    now rewrite bytes_of_body.
Qed.

Theorem atob_btoa s : atob (btoa s) = Some s.
Proof.
  unfold atob, btoa. rewrite list_ascii_of_string_of_list_ascii, decode_encode.
  cbn [option_map]. now rewrite string_of_list_ascii_of_string.
Qed.

End Base64Facts.

Module WireFacts.
Import Wire Base64 Base64Facts.
Local Open Scope nat_scope.

Lemma binary_string buffer acc :
  list_ascii_of_string
    (fold_left (fun binary b => (binary ++ String (ascii_of_byte b) EmptyString)%string)
               buffer acc)
  = list_ascii_of_string acc ++ map ascii_of_byte buffer.
Proof.
  revert acc. induction buffer as [|b r IH]; intros acc; cbn [fold_left map].
  - now rewrite app_nil_r.
  - rewrite IH. 
    assert (H : forall s t, list_ascii_of_string (s ++ t)%string
                            = list_ascii_of_string s ++ list_ascii_of_string t).
    { induction s as [|a s IHs]; intros t; [reflexivity|]. cbn. now rewrite IHs. }
    rewrite H. cbn. rewrite <- app_assoc. reflexivity.
Qed.

Lemma decode_arrayBufferToBase64 buffer :
  decode_inlineData (arrayBufferToBase64 buffer) = Some buffer.
Proof.
  unfold decode_inlineData, arrayBufferToBase64. cbv zeta. rewrite atob_btoa.
  cbn [option_map]. unfold Uint8Array_of_binary. rewrite binary_string. cbn [list_ascii_of_string app].
  rewrite map_map. f_equal. rewrite <- (map_id buffer) at 2. apply map_ext.
  intros b. apply byte_of_ascii_of_byte.
Qed.

Lemma to_N_byte_of_N n : (n < 256)%N -> Byte.to_N (byte_of_N n) = n.
Proof.
  intros Hn. unfold byte_of_N. destruct (Byte.of_N n) as [b|] eqn:E.
  - now apply Byte.to_of_N.
  - apply Byte.of_N_None_iff in E. lia.
Qed.

Lemma int16_round_trip v :
  (-32768 <= v <= 32767)%Z ->
  match bytes_of_int16 v with
  | [lo; hi] => Pcm.int16_of_pair lo hi = v
  | _ => False
  end.
Proof.
  intros Hv. unfold bytes_of_int16. cbv zeta. unfold Pcm.int16_of_pair.
  assert (Hu : (Z.to_N (v mod 65536) < 65536)%N) by (zify; Z.to_euclidean_division_equations; lia).
  rewrite !to_N_byte_of_N by (zify; Z.to_euclidean_division_equations; lia).
  cbv zeta.
  destruct (32768 <=? _)%Z eqn:E; [apply Z.leb_le in E|apply Z.leb_gt in E];
    zify; Z.to_euclidean_division_equations; lia.
Qed.

Lemma Int16Array_round_trip pcm :
  Forall (fun v => (-32768 <= v <= 32767)%Z) pcm ->
  Pcm.Int16Array_of_bytes (buffer_of_Int16Array pcm) = pcm.
Proof.
  induction 1 as [|v l Hv _ IH]; [reflexivity|].
  unfold buffer_of_Int16Array in *. cbn [flat_map].
  pose proof (int16_round_trip v Hv) as H.
  destruct (bytes_of_int16 v) as [|lo [|hi [|]]]; try contradiction.
  cbn [app Pcm.Int16Array_of_bytes]. now rewrite H, IH.
Qed.

Lemma pcm_frame_in_range inputData :
  Forall (fun v => (-32768 <= v <= 32767)%Z) (Pcm.pcm_frame inputData).
Proof.
  unfold Pcm.pcm_frame. apply Forall_forall. intros v Hv. apply in_map_iff in Hv.
  destruct Hv as (x & <- & _).
  rewrite PcmFacts.pcm_sample_trunc. pose proof (PcmFacts.scaled_bounds x). lia.
Qed.

End WireFacts.

(** * Talk detection *)

Section TalkDetection.

Lemma frame_length_cons x l : frame_length (x :: l) == frame_length l + 1.
Proof.
  unfold frame_length. cbn [List.length]. rewrite Nat2Z.inj_succ, <- Z.add_1_r, inject_Z_plus.
  reflexivity.
Qed.

Lemma frame_length_pos x l : 0 < frame_length (x :: l).
Proof.
  unfold frame_length. cbn [List.length]. rewrite Nat2Z.inj_succ.
  change 0 with (inject_Z 0). rewrite <- Zlt_Qlt. lia.
Qed.

Lemma squares_at_most (bound : Q) l :
  Forall (fun x => x * x <= bound) l ->
  forall acc, fold_left (fun sum x => sum + x * x) l acc <= acc + bound * frame_length l.
Proof.
  induction 1 as [|x l Hx _ IH]; intros acc.
  - cbn [fold_left]. change (frame_length []) with 0. lra.
  - cbn [fold_left]. cbv beta in Hx. specialize (IH (acc + x * x)). rewrite frame_length_cons. lra.
Qed.

Lemma squares_above (bound : Q) l :
  Forall (fun x => bound < x * x) l ->
  forall acc, acc + bound * frame_length l <= fold_left (fun sum x => sum + x * x) l acc.
Proof.
  induction 1 as [|x l Hx _ IH]; intros acc.
  - cbn [fold_left]. change (frame_length []) with 0. lra.
  - cbn [fold_left]. cbv beta in Hx. specialize (IH (acc + x * x)). rewrite frame_length_cons. lra.
Qed.

Lemma squares_strictly_above (bound : Q) x l :
  Forall (fun x => bound < x * x) (x :: l) ->
  bound * frame_length (x :: l) < Talk.sum_squares (x :: l).
Proof.
  intros H. inversion H as [|? ? Hx Hl]; subst.
  unfold Talk.sum_squares. cbn [fold_left].
  pose proof (squares_above bound l Hl (0 + x * x)). rewrite frame_length_cons. lra.
Qed.

(** A frame whose samples all lie within the threshold never counts as
    talking (an empty or silent frame in particular); a non-empty frame
    whose samples all lie beyond it always does. *)
Theorem rms_threshold (inputData : list Q) :
  (Forall (fun x => -(1 # 100) <= x <= 1 # 100) inputData ->
   Talk.rms_exceeds inputData = false) /\
  (inputData <> [] ->
   Forall (fun x => x < -(1 # 100) \/ 1 # 100 < x) inputData ->
   Talk.rms_exceeds inputData = true).
Proof.
  split.
  - intros H. destruct inputData as [|x l]; [reflexivity|].
    unfold Talk.rms_exceeds. apply negb_false_iff, Qle_bool_iff.
    apply Qle_shift_div_r; [apply frame_length_pos|].
    assert (H' : Forall (fun x => x * x <= 1 # 10000) (x :: l)).
    { eapply Forall_impl; [|exact H]. cbn. intros y Hy. nra. }
    pose proof (squares_at_most (1 # 10000) (x :: l) H' 0) as Hs.
    unfold Talk.sum_squares. fold (frame_length (x :: l)). lra.
  - intros Hne H. destruct inputData as [|x l]; [congruence|].
    unfold Talk.rms_exceeds. apply negb_true_iff.
    destruct (Qle_bool _ _) eqn:E; [|reflexivity]. exfalso.
    apply Qle_bool_iff in E.
    assert (H' : Forall (fun x => 1 # 10000 < x * x) (x :: l)).
    { eapply Forall_impl; [|exact H]. cbn. intros y [Hy|Hy]; nra. }
    pose proof (squares_strictly_above (1 # 10000) x l H') as Hs.
    pose proof (frame_length_pos x l) as Hc.
    fold (frame_length (x :: l)) in E.
    assert (Hm : Talk.sum_squares (x :: l) / frame_length (x :: l) * frame_length (x :: l)
                 == Talk.sum_squares (x :: l)).
    { field. lra. }
    assert (Talk.sum_squares (x :: l) / frame_length (x :: l) * frame_length (x :: l)
            <= (1 # 10000) * frame_length (x :: l)).
    { apply Qmult_le_compat_r; [exact E|lra]. }
    lra.
Qed.

Lemma rms_threshold_witness :
  Forall (fun x => -(1 # 100) <= x <= 1 # 100) [1 # 100; -1 # 100; 0] /\
  Talk.rms_exceeds [1 # 100; -1 # 100; 0] = false /\
  Forall (fun x => x < -(1 # 100) \/ 1 # 100 < x) loud /\
  Talk.rms_exceeds loud = true.
Proof.
  assert (H1 : Forall (fun x => -(1 # 100) <= x <= 1 # 100) [1 # 100; -1 # 100; 0]).
  { repeat constructor; discriminate. }
  assert (H2 : Forall (fun x => x < -(1 # 100) \/ 1 # 100 < x) loud).
  { apply Forall_cons; [right; reflexivity|].
    apply Forall_cons; [left; reflexivity|]. apply Forall_nil. }
  split; [exact H1|]. split; [exact (proj1 (rms_threshold _) H1)|].
  split; [exact H2|].
  refine (proj2 (rms_threshold loud) _ H2). discriminate.
Defined.

End TalkDetection.

(** * Connection attempts *)

Section Connections.
Local Open Scope nat_scope.

Lemma below_mono {A} n m (l : list (nat * A)) : n <= m -> below n l -> below m l.
Proof. intros Hnm. apply Forall_impl. intros ka H. lia. Qed.

Lemma below_delete {A} n k (l : list (nat * A)) : below n l -> below n (delete k l).
Proof.
  induction 1 as [|[k' a] l Hk _ IH]; [constructor|].
  unfold delete; fold (@delete A). destruct (Nat.eqb k k'); [assumption|].
  constructor; assumption.
Qed.

Lemma below_store {A} n k a (l : list (nat * A)) : k < n -> below n l -> below n (store k a l).
Proof. intros Hk Hl. constructor; [exact Hk|]. now apply below_delete. Qed.

Lemma below_adjust {A} n k f (l : list (nat * A)) : below n l -> below n (adjust k f l).
Proof.
  induction 1 as [|[k' a] l Hk Hl IH]; [constructor|].
  unfold adjust; fold (@adjust A). destruct (Nat.eqb k k'); constructor; assumption.
Qed.

Lemma below_app {A} n (l1 l2 : list (nat * A)) : below n l1 -> below n l2 -> below n (l1 ++ l2).
Proof. intros H1 H2. apply Forall_app. now split. Qed.

Lemma lookup_below {A} n k a (l : list (nat * A)) : below n l -> lookup k l = Some a -> k < n.
Proof.
  induction 1 as [|[k' b] l Hk _ IH]; [discriminate|].
  unfold lookup; fold (@lookup A). destruct (Nat.eqb k k') eqn:E.
  - apply Nat.eqb_eq in E. subst. intros _. exact Hk.
  - exact IH.
Qed.

Lemma lookup_fresh {A} n k (l : list (nat * A)) : below n l -> n <= k -> lookup k l = None.
Proof.
  intros Hl Hk. destruct (lookup k l) eqn:E; [|reflexivity].
  pose proof (lookup_below n k _ l Hl E). lia.
Qed.

Lemma lookup_delete {A} k (l : list (nat * A)) : lookup k (delete k l) = None.
Proof.
  induction l as [|[k' a] l IH]; [reflexivity|].
  unfold delete; fold (@delete A). destruct (Nat.eqb k k') eqn:E; [assumption|].
  unfold lookup; fold (@lookup A). now rewrite E.
Qed.

Lemma lookup_app_fresh {A} k a (l : list (nat * A)) :
  lookup k l = None -> lookup k (l ++ [(k, a)]) = Some a.
Proof.
  induction l as [|[k' b] l IH]; intros H.
  - unfold lookup. cbn. now rewrite Nat.eqb_refl.
  - unfold lookup in H; fold (@lookup A) in H. cbn [app].
    unfold lookup; fold (@lookup A). destruct (Nat.eqb k k'); [discriminate|]. now apply IH.
Qed.

Ltac solve_below :=
  match goal with
  | |- below _ (_ ++ _) => apply below_app; solve_below
  | |- below _ (store _ _ _) => apply below_store; [lia | solve_below]
  | |- below _ (delete _ _) => apply below_delete; solve_below
  | |- below _ (adjust _ _ _) => apply below_adjust; solve_below
  | |- below _ [_] => repeat constructor; cbn; lia
  | H : below ?n ?l |- below ?m ?l => apply (below_mono n m l); [lia | exact H]
  end.

Lemma step_handles_drawn s e : handles_drawn s -> handles_drawn (step s e).
Proof.
  intros [Ht Hs].
  destruct e as [| | | | | | |? [[bytes|] i o u] ?| | | | | |];
    break_state s; unfold handles_drawn in *; cbn in Ht, Hs.
  all: run_hook; split;
    repeat match goal with
           | H : lookup ?k ?l = Some _ |- _ =>
               lazymatch goal with
               | _ : k < _ |- _ => fail
               | _ => first [ pose proof (lookup_below _ _ _ _ Ht H)
                            | pose proof (lookup_below _ _ _ _ Hs H) ]
               end
           end;
    solve_below.
Qed.

Lemma run_handles_drawn es : forall s, handles_drawn s -> handles_drawn (run s es).
Proof.
  induction es as [|e es IH]; intros s H; [assumption|].
  cbn. apply IH. now apply step_handles_drawn.
Qed.

Lemma reachable_handles_drawn es : handles_drawn (run initial es).
Proof. apply run_handles_drawn. split; constructor. Qed.

Lemma mem_head n l : mem n (n :: l) = true.
Proof. unfold mem. cbn. now rewrite Nat.eqb_refl. Qed.

Lemma lookup_store {A} k (a : A) l : lookup k (store k a l) = Some a.
Proof. unfold store, lookup. now rewrite Nat.eqb_refl. Qed.

Lemma adjust_store {A} k (f : A -> A) a l : adjust k f (store k a l) = (k, f a) :: delete k l.
Proof. unfold store, adjust. now rewrite Nat.eqb_refl. Qed.

Lemma connects_run (s : State) (stream : StreamId) :
  lookup (S (fresh s)) (tasks s) = None ->
  isConnectingRef s = false -> isConnected s = false ->
  let c := fresh s in
  let k := S (fresh s) in
  let n := S (S (fresh s)) in
  exists tk' ss',
    run s (connects k stream)
    = mkState true (isAITalking s) (isUserTalking s) (messages s) None (Some k) true false
              (Some c) (Some stream) (nextStartTimeRef s) (Some n)
              (userTalkingTimeoutRef s) (n :: without n (port_onmessage s))
              (timers s) (clock s) (S n) tk' ss' (c :: modules s)
              (log s ++ [new_AudioContext c; call_getUserMedia; node_connect n c;
                         live_connect k]) /\
    lookup k tk' = None /\ lookup k ss' = Some (mkRequest n Open).
Proof.
  intros Hk Hc Hi. cbv zeta. break_state s. cbn in Hk, Hc, Hi. subst.
  unfold connects, run, fold_left.
  unfold step at 5. unfold connect. cbn [isConnectingRef isConnected orb].
  cbn [set_isConnectingRef set_isSessionActiveRef set_error set_audioContextRef emit
       set_log log set_tasks tasks set_fresh fresh].
  cbn [step tasks]. rewrite (lookup_app_fresh _ _ _ Hk).
  unfold connect_addModule.
  cbn [set_modules modules emit set_log log set_tasks tasks].
  rewrite lookup_store.
  unfold connect_getUserMedia.
  cbn [set_streamRef audioContextRef modules]. rewrite mem_head.
  cbn [fresh set_fresh set_workletNodeRef emit set_log log set_sessions sessions set_tasks tasks].
  rewrite !lookup_store.
  unfold set_status, onopen, connect_session, finish.
  cbn. unfold status_of. cbn. rewrite adjust_store. rewrite lookup_store. cbn.
  rewrite <- !app_assoc. cbn [app].
  do 2 eexists. split; [reflexivity|]. split.
  - apply lookup_delete.
  - unfold lookup. now rewrite Nat.eqb_refl.
Qed.

(** A connection attempt started in a reachable state that is neither
    connecting nor connected, and in which every step succeeds, ends
    connected: the session is stored, the capture callback sits on the new
    worklet node, and the next captured frame is sent on that session as
    16-bit PCM. *)
Theorem connect_opens_session (before : list Event) (stream : StreamId) :
  let s := run initial before in
  isConnectingRef s = false -> isConnected s = false ->
  let c := fresh s in
  let k := S (fresh s) in
  let n := S (S (fresh s)) in
  let s' := run s (connects k stream) in
  isConnected s' = true /\ isSessionActiveRef s' = true /\ isConnectingRef s' = false /\
  error s' = None /\ sessionRef s' = Some k /\
  audioContextRef s' = Some c /\ streamRef s' = Some stream /\
  workletNodeRef s' = Some n /\
  port_onmessage s' = n :: without n (port_onmessage s) /\
  status_of k s' = Some Open /\ lookup k (tasks s') = None /\
  log s' = log s ++ [new_AudioContext c; call_getUserMedia; node_connect n c;
                     live_connect k] /\
  forall inputData,
    log (step s' (ev_frame n inputData true))
      = log s' ++ [send_media k (Pcm.pcm_frame inputData)].
Proof.
  cbv zeta. intros Hc Hi.
  destruct (reachable_handles_drawn before) as [Ht _].
  destruct (connects_run (run initial before) stream
              (lookup_fresh _ _ _ Ht (Nat.le_succ_diag_r _)) Hc Hi)
    as (tk' & ss' & E & Hk & Hs).
  cbv zeta in E. rewrite E. unfold status_of. cbn.
  rewrite Hk, Hs. repeat split.
  intros inputData. unfold mem. cbn [existsb]. rewrite Nat.eqb_refl. cbn [orb].
  unfold worklet_onmessage. cbn.
  destruct (Talk.rms_exceeds inputData); cbn;
    destruct (userTalkingTimeoutRef (run initial before)); reflexivity.
Qed.

Lemma connect_opens_session_witness :
  let s := run initial (connects 1 7 ++ [ev_disconnect]) in
  let s' := run s (connects 4 8) in
  isConnectingRef s = false /\ isConnected s = false /\
  isConnected s' = true /\ sessionRef s' = Some 4 /\ workletNodeRef s' = Some 5 /\
  log (step s' (ev_frame 5 [1 # 2; -3 # 2]%Q true))
    = log s' ++ [send_media 4 (Pcm.pcm_frame [1 # 2; -3 # 2]%Q)].
Proof.
  cbv zeta. split; [reflexivity|]. split; [reflexivity|].
  destruct (connect_opens_session (connects 1 7 ++ [ev_disconnect]) 8 eq_refl eq_refl)
    as (H1 & _ & _ & _ & H5 & _ & _ & H8 & _ & _ & _ & _ & H13).
  split; [exact H1|]. split; [exact H5|]. split; [exact H8|]. exact (H13 _).
Defined.



(** Whichever await of connect() fails (the worklet module, the
    microphone or the session), the invocation ends in the catch block: the
    error message is published, the flags are cleared, every device held is
    released and the invocation is gone; connected and the session handle
    are left as they were. *)
Theorem connect_failure_releases (s : State) (k : SessionId) :
  (forall c, lookup k (tasks s) = Some (AwaitAddModule c) ->
     aborted s (step s (ev_addModule k false)) /\
     lookup k (tasks (step s (ev_addModule k false))) = None) /\
  (lookup k (tasks s) = Some AwaitGetUserMedia ->
     aborted s (step s (ev_getUserMedia k None)) /\
     lookup k (tasks (step s (ev_getUserMedia k None))) = None) /\
  (forall n, lookup k (tasks s) = Some (AwaitSession n) ->
     aborted s (step s (ev_session k false)) /\
     lookup k (tasks (step s (ev_session k false))) = None).
Proof.
  unfold aborted. repeat split; intros;
    match goal with H : lookup _ _ = Some _ |- _ => cbn [step]; rewrite H end;
    break_state s; unfold_hook; cbn; rewrite stopAudio_eq; cbn;
    try reflexivity; apply lookup_delete.
Qed.

Lemma connect_failure_releases_witness :
  lookup 1 (tasks connecting) = Some (AwaitSession 2) /\
  error (step connecting (ev_session 1 false)) = Some connect_failed /\
  log (step connecting (ev_session 1 false))
    = log connecting ++ [node_disconnect 2; context_close 0; track_stop 7].
Proof.
  split; [reflexivity|].
  destruct (proj2 (proj2 (connect_failure_releases connecting 1)) 2 eq_refl)
    as [(H1 & _ & _ & _ & _ & _ & _ & _ & _ & H10 & _) _].
  split; [exact H1|exact H10].
Defined.

(** disconnect() while connect() waits for the worklet module or for the
    microphone does not stop the invocation: the microphone is still
    requested, and when the stream arrives it is stopped at once, the error
    message is published and no session is requested. *)
Theorem disconnect_during_acquisition (s : State) (k : SessionId) (stream : StreamId) :
  (forall c, lookup k (tasks s) = Some (AwaitAddModule c) ->
     let s' := run s [ev_disconnect; ev_addModule k true] in
     log s' = log (disconnect s) ++ [call_getUserMedia] /\
     lookup k (tasks s') = Some AwaitGetUserMedia /\ audioContextRef s' = None) /\
  (lookup k (tasks s) = Some AwaitGetUserMedia ->
     let s' := run s [ev_disconnect; ev_getUserMedia k (Some stream)] in
     log s' = log (disconnect s) ++ [track_stop stream] /\
     streamRef s' = None /\ error s' = Some connect_failed /\
     isConnectingRef s' = false /\ isSessionActiveRef s' = false /\
     sessions s' = sessions (disconnect s) /\ lookup k (tasks s') = None).
Proof.
  assert (Ht : tasks (disconnect s) = tasks s).
  { break_state s. unfold disconnect, close_session, emit, detach_capture.
    destruct se, wn; cbn; rewrite ?stopAudio_eq; reflexivity. }
  assert (Hc : audioContextRef (disconnect s) = None).
  { break_state s. unfold disconnect, close_session, emit, detach_capture.
    destruct se, wn; cbn; rewrite ?stopAudio_eq; reflexivity. }
  assert (Hst : streamRef (disconnect s) = None /\ workletNodeRef (disconnect s) = None).
  { break_state s. unfold disconnect, close_session, emit, detach_capture.
    destruct se, wn; cbn; rewrite ?stopAudio_eq; split; reflexivity. }
  destruct Hst as [Hst Hwn].
  split.
  - intros c Hk. cbv zeta. unfold run, fold_left. cbn [step].
    remember (disconnect s) as d eqn:Hd. clear Hd. rewrite Ht, Hk.
    break_state d. cbn in Ht, Hc. subst. unfold_hook. cbn.
    repeat split. apply lookup_store.
  - intros Hk. cbv zeta. unfold run, fold_left. cbn [step].
    remember (disconnect s) as d eqn:Hd. clear Hd. rewrite Ht, Hk.
    break_state d. cbn in Ht, Hc, Hst, Hwn. subst. unfold_hook. cbn.
    rewrite ?stopAudio_eq. unfold teardown_calls, detached, detach_capture. cbn.
    rewrite <- ?app_assoc. repeat split; try reflexivity. apply lookup_delete.
Qed.

Lemma disconnect_during_acquisition_witness :
  let s := run initial [ev_connect; ev_addModule 1 true] in
  lookup 1 (tasks s) = Some AwaitGetUserMedia /\
  closes (log (run s [ev_disconnect; ev_getUserMedia 1 (Some 7)])) = [] /\
  log (run s [ev_disconnect; ev_getUserMedia 1 (Some 7)])
    = log (disconnect s) ++ [track_stop 7].
Proof.
  cbv zeta. split; [reflexivity|]. split; [reflexivity|].
  exact (proj1 (proj2 (disconnect_during_acquisition
                         (run initial [ev_connect; ev_addModule 1 true]) 1 7) eq_refl)).
Defined.


End Connections.

(** * Inbound and outbound messages *)

Section Messages.
Local Open Scope nat_scope.

(** An inbound message handled on an active session whose audio payload,
    if any, decodes adds its transcription fragments as separate messages,
    the model's before the user's, and nothing for a missing or an empty
    text, whatever the interrupted flag says; when the payload has an odd
    number of bytes the handler ends at the decoding error and adds
    nothing. *)
Theorem transcripts_appended_in_order (s : State) (m : LiveServerMessage) (now : Q) :
  isSessionActiveRef s = true ->
  (decodable m = true -> messages (onmessage m now s) = messages s ++ transcripts m) /\
  (forall bytes, inlineData m = Some bytes -> Nat.odd (List.length bytes) = true ->
   messages (onmessage m now s) = messages s).
Proof.
  intros Ha. split.
  - intros Hd. unfold transcripts.
    assert (H : forall s0, messages (append_message user (inputTranscription m)
                             (append_message model (outputTranscription m) s0))
                  = messages s0 ++ fragment model (outputTranscription m)
                               ++ fragment user (inputTranscription m)).
    { intros s0. unfold append_message, truthy, fragment. break_state s0.
      destruct (outputTranscription m) as [[|a t]|], (inputTranscription m) as [[|b u]|];
        cbn; rewrite <- ?app_assoc, ?app_nil_r; reflexivity. }
    destruct (inlineData m) as [bytes|] eqn:Eb.
    + destruct (audioContextRef s) as [c|] eqn:Ec.
      * rewrite (onmessage_audio_chunk s m now c Ha Ec Hd) by congruence.
        cbv zeta. rewrite H. f_equal. break_state s. destruct (interrupted m); reflexivity.
      * unfold decodable, well_formed in Hd. rewrite Eb in Hd.
        apply andb_true_iff in Hd. destruct Hd as [He _].
        unfold onmessage, schedule_audio. rewrite Ha, Eb. cbn [negb].
        break_state s. cbn in Ha, Ec. subst.
        cbn [set_isAITalking audioContextRef]. rewrite <- Nat.negb_even, He. cbn [negb].
        rewrite H. f_equal. destruct (interrupted m); reflexivity.
    + unfold onmessage. rewrite Ha, Eb. cbn [negb]. rewrite H. f_equal.
      break_state s. destruct (interrupted m); reflexivity.
  - intros bytes Eb Ho. unfold onmessage, schedule_audio. rewrite Ha, Eb, Ho. cbn [negb].
    break_state s. reflexivity.
Qed.

(** A barge-in message with both transcriptions; one whose user text is
    empty; and one whose audio payload has three bytes. *)
Lemma transcripts_appended_in_order_witness :
  let m := mkServerMessage None true (Some "Hi there"%string) (Some "hello"%string) in
  let m1 := mkServerMessage (Some [x00; x40]) false (Some "Hi there"%string)
                            (Some EmptyString) in
  let m2 := mkServerMessage (Some [x00; x40; x00]) false (Some "Hi there"%string) None in
  isSessionActiveRef connected = true /\ decodable m = true /\ decodable m1 = true /\
  messages (onmessage m 0 connected)
    = messages connected ++ [mkMessage model "Hi there"; mkMessage user "hello"] /\
  messages (onmessage m1 0 connected) = messages connected ++ [mkMessage model "Hi there"] /\
  messages (onmessage m2 0 connected) = messages connected.
Proof.
  cbv zeta. split; [reflexivity|]. split; [reflexivity|]. split; [reflexivity|].
  split; [|split].
  - exact (proj1 (transcripts_appended_in_order connected
             (mkServerMessage None true (Some "Hi there"%string) (Some "hello"%string)) 0
             eq_refl) eq_refl).
  - exact (proj1 (transcripts_appended_in_order connected
             (mkServerMessage (Some [x00; x40]) false (Some "Hi there"%string)
                              (Some EmptyString)) 0
             eq_refl) eq_refl).
  - exact (proj2 (transcripts_appended_in_order connected
             (mkServerMessage (Some [x00; x40; x00]) false (Some "Hi there"%string) None) 0
             eq_refl) _ eq_refl eq_refl).
Defined.

Lemma step_messages_grow s e : exists l, messages (step s e) = messages s ++ l.
Proof.
  destruct e as [| | | | | | |? [[bytes|] i o u] ?| | | | | |]; break_state s.
  all: run_hook;
    first [ exists []; rewrite app_nil_r; reflexivity
          | eexists; reflexivity
          | eexists; rewrite <- app_assoc; reflexivity ].
Qed.

Lemma step_media_in_range s e : media_in_range (log s) -> media_in_range (log (step s e)).
Proof.
  intros H.
  assert (Hf : forall d, Forall in_int16 (Pcm.pcm_frame d)).
  { intros d. unfold Pcm.pcm_frame. apply Forall_forall. intros v Hv.
    apply in_map_iff in Hv. destruct Hv as (x & <- & _). unfold in_int16.
    rewrite PcmFacts.pcm_sample_trunc. apply PcmFacts.scaled_bounds. }
  assert (Ht : forall s0, media_in_range (teardown_calls s0)).
  { intros s0. unfold teardown_calls, media_in_range.
    destruct (workletNodeRef s0), (audioContextRef s0), (streamRef s0);
      repeat constructor. }
  destruct e as [| | | | | | |? [[bytes|] i o u] ?| | | | | |]; break_state s;
    cbn in H.
  all: run_hook; unfold media_in_range in *;
    repeat first [ assumption | apply Ht | apply Hf | exact I
                 | apply Forall_app; split | apply Forall_cons | apply Forall_nil ].
Qed.

(** The message log is append-only: whatever happens (teardown and
    reconnection included), the earlier log is a prefix of the later one,
    and only an inbound message or a text message can add to it. *)
Theorem messages_append_only (s : State) :
  (forall es, exists l, messages (run s es) = messages s ++ l) /\
  (forall e, match e with
             | ev_message _ _ _ | ev_sendTextMessage _ _ => True
             | _ => messages (step s e) = messages s
             end).
Proof.
  split.
  - intros es. revert s. induction es as [|e es IH]; intros s.
    + exists []. cbn. now rewrite app_nil_r.
    + destruct (step_messages_grow s e) as [l1 H1].
      destruct (IH (step s e)) as [l2 H2].
      exists (l1 ++ l2). change (run s (e :: es)) with (run (step s e) es).
      now rewrite H2, H1, app_assoc.
  - intros e. destruct e; try exact I; break_state s; run_hook; reflexivity.
Qed.

(** Every audio chunk the hook ever transmits holds samples between -32767
    and 32767. *)
Theorem sent_samples_in_range (es : list Event) : media_in_range (log (run initial es)).
Proof.
  assert (H : forall es s, media_in_range (log s) -> media_in_range (log (run s es))).
  { clear es. induction es as [|e es IH]; intros s Hs; [assumption|].
    cbn. apply IH. now apply step_media_in_range. }
  apply H. constructor.
Qed.

(** An audio payload that cannot be decoded ([atob] throws, or the byte
    count is odd) ends the handler after [setIsAITalking(true)]: nothing is
    scheduled, and the interrupted flag and the transcriptions of the same
    message are not handled. *)
Theorem undecodable_audio_skips_rest (s : State) (w : WireMessage) (now : Q) (data : string) :
  isSessionActiveRef s = true -> truthy (audioData w) = Some data ->
  match Wire.decode_inlineData data with
  | None => True
  | Some bytes => Nat.odd (List.length bytes) = true
  end ->
  onmessage_wire w now s = set_isAITalking true s.
Proof.
  intros Ha Hd Hb. unfold onmessage_wire. rewrite Ha, Hd. cbn [negb].
  destruct (Wire.decode_inlineData data) as [bytes|]; [|reflexivity].
  unfold onmessage, received, schedule_audio. rewrite Ha. cbn [negb inlineData].
  break_state s. cbn in Ha. subst. cbn. now rewrite Hb.
Qed.

Lemma undecodable_audio_skips_rest_witness :
  let w := mkWireMessage (Some "AAAA"%string) true (Some "Hi"%string) None in
  let s := onmessage_wire w 0 connected in
  truthy (audioData w) = Some "AAAA"%string /\
  isAITalking s = true /\ messages s = [] /\ segments (log s) = [].
Proof.
  cbv zeta. split; [reflexivity|].
  rewrite (undecodable_audio_skips_rest connected
             (mkWireMessage (Some "AAAA"%string) true (Some "Hi"%string) None) 0 "AAAA"
             eq_refl eq_refl eq_refl).
  repeat split; reflexivity.
Defined.

End Messages.

Section WireTheorems.
Import Wire WireFacts Base64 Base64Facts.
Local Open Scope nat_scope.

(** What [arrayBufferToBase64] produces, the inbound path reads back:
    [atob] and the copy into a [Uint8Array] return the bytes of the buffer,
    whatever they are. *)
Theorem arrayBufferToBase64_decodes (buffer : list byte) :
  decode_inlineData (arrayBufferToBase64 buffer) = Some buffer.
Proof. apply decode_arrayBufferToBase64. Qed.

(** The payload of a captured frame decodes, by the steps of the inbound
    path, to the very 16-bit samples that were converted from the frame. *)
Theorem capture_payload_round_trip (inputData : list Q) :
  option_map Pcm.Int16Array_of_bytes
    (decode_inlineData
       (arrayBufferToBase64 (buffer_of_Int16Array (Pcm.pcm_frame inputData))))
  = Some (Pcm.pcm_frame inputData).
Proof.
  rewrite decode_arrayBufferToBase64. cbn [option_map]. f_equal.
  apply Int16Array_round_trip, pcm_frame_in_range.
Qed.

Lemma encode_length s : List.length (encode s) = 4 * ((List.length s + 2) / 3).
Proof.
  induction s as [|a|a b|a b c r IH] using list_ind3; try reflexivity.
  cbn [encode List.length]. rewrite IH.
  change (S (S (S (List.length r))) + 2) with (3 + (List.length r + 2)).
  replace (3 + (List.length r + 2)) with (List.length r + 2 + 1 * 3) by lia.
  rewrite Nat.div_add by lia. lia.
Qed.

Lemma string_length s : String.length (string_of_list_ascii s) = List.length s.
Proof. induction s as [|a s IH]; [reflexivity|]. cbn. now rewrite IH. Qed.

Lemma buffer_length pcm : List.length (buffer_of_Int16Array pcm) = 2 * List.length pcm.
Proof.
  unfold buffer_of_Int16Array. induction pcm as [|v l IH]; [reflexivity|].
  cbn [flat_map]. rewrite length_app, IH. unfold bytes_of_int16. cbn [List.length]. lia.
Qed.

Lemma encode_alphabet s :
  Forall (fun a => In a alphabet \/ a = pad_char) (encode s).
Proof.
  assert (H : forall n, small n -> In (char_of n) alphabet \/ char_of n = pad_char).
  { intros n Hn. left. unfold char_of. apply nth_In. unfold small in Hn.
    change (List.length alphabet) with 64. lia. }
  rewrite encode_split. apply Forall_app. split.
  - pose proof (body_small s) as Hb. induction Hb as [|n l Hn _ IH]; constructor; auto.
  - destruct (padding_cases s) as [->|[->| ->]];
      repeat (apply Forall_cons; [right; reflexivity|]); apply Forall_nil.
Qed.

(** The payload of a buffer of n bytes has 4 * ceil(n / 3) characters, all
    of them from the base64 alphabet or the padding character; a frame of k
    samples is a buffer of 2 k bytes. *)
Theorem arrayBufferToBase64_shape (buffer : list byte) :
  String.length (arrayBufferToBase64 buffer) = 4 * ((List.length buffer + 2) / 3) /\
  Forall (fun a => In a alphabet \/ a = pad_char)
         (list_ascii_of_string (arrayBufferToBase64 buffer)) /\
  forall pcmData,
    List.length (buffer_of_Int16Array pcmData) = 2 * List.length pcmData.
Proof.
  unfold arrayBufferToBase64, btoa. cbv zeta.
  rewrite string_length, encode_length, list_ascii_of_string_of_list_ascii, binary_string.
  cbn [list_ascii_of_string app]. rewrite length_map.
  split; [reflexivity|]. split; [apply encode_alphabet|apply buffer_length].
Qed.

End WireTheorems.

Section Inbound.
Import Wire WireFacts Base64 Base64Facts.
Local Open Scope nat_scope.

Lemma onmessage_audio_log s m now c :
  isSessionActiveRef s = true -> audioContextRef s = Some c -> decodable m = true ->
  inlineData m <> None ->
  log (onmessage m now s)
  = log s ++ [source_start (Qmax now (nextStartTimeRef s)) (duration_of m) (samples_of m)].
Proof.
  intros Ha Hc Hd Hn. rewrite (onmessage_audio_chunk s m now c Ha Hc Hd Hn). cbv zeta.
  unfold append_message. break_state s.
  destruct (interrupted m), (truthy (outputTranscription m)),
    (truthy (inputTranscription m)); reflexivity.
Qed.

Lemma payload_truthy buffer :
  buffer <> [] -> truthy (Some (arrayBufferToBase64 buffer)) = Some (arrayBufferToBase64 buffer).
Proof.
  intros Hne. unfold arrayBufferToBase64, btoa. cbv zeta.
  pose proof (binary_string buffer EmptyString) as H. cbn [list_ascii_of_string app] in H.
  rewrite H. destruct buffer as [|b [|b' [|b'' r]]]; [congruence| | |]; reflexivity.
Qed.

(** An inbound payload that is the base64 text of n >= 1 16-bit
    little-endian samples is scheduled, on an active session with an audio
    context, as one segment that starts at max(now, nextFreeTime), lasts
    n / 24000 seconds and holds each sample divided by 32768. *)
Theorem wire_chunk_scheduled (s : State) (c : CtxId) (w : WireMessage) (now : Q)
        (pcm : list Z) :
  isSessionActiveRef s = true -> audioContextRef s = Some c ->
  pcm <> [] -> Forall (fun v => (-32768 <= v <= 32767)%Z) pcm ->
  audioData w = Some (arrayBufferToBase64 (buffer_of_Int16Array pcm)) ->
  log (onmessage_wire w now s)
  = log s ++ [source_start (Qmax now (nextStartTimeRef s))
                           (Z.of_nat (List.length pcm) # 24000)
                           (map Pcm.float32_of_pcm pcm)].
Proof.
  intros Ha Hc Hne Hr Hw.
  assert (Hb : buffer_of_Int16Array pcm <> []).
  { destruct pcm as [|v l]; [congruence|]. unfold buffer_of_Int16Array, bytes_of_int16.
    cbn [flat_map app]. discriminate. }
  unfold onmessage_wire. rewrite Ha, Hw, (payload_truthy _ Hb). cbn [negb].
  rewrite decode_arrayBufferToBase64.
  assert (Hl : List.length (buffer_of_Int16Array pcm) = 2 * List.length pcm).
  { unfold buffer_of_Int16Array. clear. induction pcm as [|v l IH]; [reflexivity|].
    cbn [flat_map]. rewrite length_app, IH. unfold bytes_of_int16. cbn [List.length]. lia. }
  rewrite (onmessage_audio_log s _ now c Ha Hc).
  - unfold duration_of, samples_of, received. cbn [inlineData].
    rewrite (Int16Array_round_trip pcm Hr), length_map. reflexivity.
  - unfold decodable, received, well_formed. cbn [inlineData]. rewrite Hl.
    apply andb_true_iff. split.
    + rewrite Nat.even_mul. reflexivity.
    + destruct pcm; [congruence|]. apply Nat.leb_le. cbn [List.length]. lia.
  - discriminate.
Qed.

Lemma wire_chunk_scheduled_witness :
  let w := mkWireMessage (Some (arrayBufferToBase64 (buffer_of_Int16Array [16384; -16384]%Z)))
                         false None None in
  isSessionActiveRef connected = true /\ audioContextRef connected = Some 0 /\
  audioData w = Some "AEAAwA=="%string /\
  log (onmessage_wire w (1 # 10) connected)
  = log connected ++ [source_start (Qmax (1 # 10) 0) (2 # 24000) [16384 # 32768; -16384 # 32768]%Q].
Proof.
  cbv zeta. split; [reflexivity|]. split; [reflexivity|]. split; [reflexivity|].
  refine (wire_chunk_scheduled connected 0
            (mkWireMessage (Some (arrayBufferToBase64 (buffer_of_Int16Array [16384; -16384]%Z)))
                           false None None)
            (1 # 10) [16384; -16384]%Z eq_refl eq_refl _ _ eq_refl).
  - discriminate.
  - repeat constructor; discriminate.
Defined.

End Inbound.

(** * Playback *)

Section PlaybackFacts.
Local Open Scope nat_scope.

Lemma to_N_below (b : byte) : (Byte.to_N b < 256)%N.
Proof. destruct b; vm_compute; reflexivity. Qed.

Lemma int16_of_pair_range lo hi : (-32768 <= Pcm.int16_of_pair lo hi <= 32767)%Z.
Proof.
  unfold Pcm.int16_of_pair. cbv zeta.
  pose proof (to_N_below lo). pose proof (to_N_below hi).
  destruct (32768 <=? _)%Z eqn:E; [apply Z.leb_le in E|apply Z.leb_gt in E]; lia.
Qed.

Lemma Int16Array_of_bytes_facts bs :
  (Forall (fun v => (-32768 <= v <= 32767)%Z) (Pcm.Int16Array_of_bytes bs) /\
   List.length (Pcm.Int16Array_of_bytes bs) = List.length bs / 2) /\
  forall b,
    Forall (fun v => (-32768 <= v <= 32767)%Z) (Pcm.Int16Array_of_bytes (b :: bs)) /\
    List.length (Pcm.Int16Array_of_bytes (b :: bs)) = S (List.length bs) / 2.
Proof.
  induction bs as [|hi r [[IH1 IH2] IH3]].
  - split; [split; [constructor|reflexivity]|]. intros b. split; [constructor|reflexivity].
  - split; [apply IH3|]. intros lo. cbn [Pcm.Int16Array_of_bytes List.length]. split.
    + constructor; [apply int16_of_pair_range|exact IH1].
    + rewrite IH2. change (S (S (List.length r))) with (2 + List.length r).
      replace (2 + List.length r) with (List.length r + 1 * 2) by lia.
      rewrite Nat.div_add by lia. lia.
Qed.

(** Every sample handed to the output lies in [-1, 1), whatever bytes
    arrive, and a payload of 2 n bytes gives n samples. *)
Theorem playback_samples_bounded (m : LiveServerMessage) :
  Forall (fun x => (-1 <= x /\ x < 1)%Q) (samples_of m) /\
  forall bytes,
    inlineData m = Some bytes -> Nat.even (List.length bytes) = true ->
    2 * List.length (samples_of m) = List.length bytes.
Proof.
  unfold samples_of. destruct (inlineData m) as [bytes|];
    [|split; [constructor|discriminate]].
  destruct (Int16Array_of_bytes_facts bytes) as [[H1 H2] _]. split.
  - apply Forall_forall. intros x Hx. apply in_map_iff in Hx. destruct Hx as (v & <- & Hv).
    rewrite Forall_forall in H1. specialize (H1 v Hv).
    unfold Pcm.float32_of_pcm, Qle, Qlt. cbn. lia.
  - intros bs [= <-] He. rewrite length_map, H2.
    apply Nat.even_spec in He. destruct He as [k ->].
    rewrite (Nat.mul_comm 2 k), Nat.div_mul by lia. lia.
Qed.

Lemma playback_samples_bounded_witness :
  inlineData chunk = Some [x00; x40; x00; x40] /\
  samples_of chunk = [16384 # 32768; 16384 # 32768]%Q /\
  2 * List.length (samples_of chunk) = 4.
Proof.
  split; [reflexivity|]. split; [reflexivity|].
  exact (proj2 (playback_samples_bounded chunk) _ eq_refl eq_refl).
Defined.

Lemma play_keeps_talking c ms :
  forall s, isSessionActiveRef s = true -> audioContextRef s = Some c ->
  forallb (fun mc => audio_chunk (fst mc)) ms = true ->
  isSessionActiveRef (play s ms) = true /\ audioContextRef (play s ms) = Some c /\
  (ms <> [] -> isAITalking (play s ms) = true).
Proof.
  induction ms as [|[m now] ms IH]; intros s Ha Hc Hall.
  - repeat split; try assumption. congruence.
  - cbn in Hall. apply andb_true_iff in Hall. destruct Hall as [Hm Hall].
    destruct (onmessage_chunk_effects s m now c Ha Hc Hm) as (Ha' & Hc' & Hai & _).
    cbv zeta in *. change (play s ((m, now) :: ms)) with (play (onmessage m now s) ms).
    destruct (IH _ Ha' Hc' Hall) as (H1 & H2 & H3). repeat split; try assumption.
    intros _. destruct ms as [|x ms']; [exact Hai|]. apply H3. discriminate.
Qed.

(** After audio chunks have been scheduled the assistant counts as
    talking, and the completion callback of a segment clears the flag
    exactly when the output clock is within 100 ms of the end of the queued
    audio: a segment that ends while more audio is queued does not clear
    it. *)
Theorem assistant_talking_until_queue_drains (s : State) (c : CtxId)
        (ms : list (LiveServerMessage * Q)) :
  isSessionActiveRef s = true -> audioContextRef s = Some c ->
  forallb (fun mc => audio_chunk (fst mc)) ms = true -> ms <> [] ->
  let s' := play s ms in
  isAITalking s' = true /\
  forall t, isAITalking (source_onended t s')
            = negb (Qle_bool (nextStartTimeRef s' - (1 # 10)) t).
Proof.
  intros Ha Hc Hall Hne. cbv zeta.
  destruct (play_keeps_talking c ms s Ha Hc Hall) as (_ & Hc' & Hai).
  specialize (Hai Hne). split; [exact Hai|].
  intros t. unfold source_onended. rewrite Hc'.
  destruct (Qle_bool _ t); [|cbn; exact Hai].
  generalize (play s ms). intros s0. break_state s0. reflexivity.
Qed.

Lemma assistant_talking_until_queue_drains_witness :
  let ms := [(chunk, 0%Q); (chunk, 0%Q)] in
  isSessionActiveRef connected = true /\ audioContextRef connected = Some 0 /\
  isAITalking (source_onended (2 # 24000) (play connected ms)) = false /\
  isAITalking (play connected ms) = true.
Proof.
  cbv zeta. split; [reflexivity|]. split; [reflexivity|].
  assert (Hne : [(chunk, 0%Q); (chunk, 0%Q)] <> []) by discriminate.
  destruct (assistant_talking_until_queue_drains connected 0 [(chunk, 0%Q); (chunk, 0%Q)]
              eq_refl eq_refl eq_refl Hne) as [H1 H2].
  split; [|exact H1]. exact (eq_trans (H2 (2 # 24000)%Q) eq_refl).
Defined.

(** In every state the hook can reach at most one user-talking timeout is
    pending, and it is the one userTalkingTimeoutRef holds; a timeout
    other than the one the ref holds (such as that of an earlier frame,
    renewed since) does not fire. *)
Theorem at_most_one_decay_timer (es : list Event) :
  let s := run initial es in
  timers_tracked s /\
  forall id, userTalkingTimeoutRef s <> Some id -> step s (ev_timeout id) = s.
Proof.
  cbv zeta.
  assert (H : timers_tracked (run initial es)) by (apply run_timers_tracked; now left).
  split; [exact H|]. intros id Hid. cbn [step].
  destruct H as [H|(id0 & due & H & Hr)]; rewrite H; [reflexivity|].
  unfold lookup. destruct (Nat.eqb id id0) eqn:E; [|reflexivity].
  apply Nat.eqb_eq in E. subst. congruence.
Qed.

End PlaybackFacts.

(** * The component *)

Module LucaBotFacts.
Import LucaBot.
Local Open Scope nat_scope.

Lemma trim_start_idem l : trim_start (trim_start l) = trim_start l.
Proof.
  induction l as [|a l IH]; [reflexivity|].
  cbn [trim_start]. destruct (is_space a) eqn:E; [exact IH|].
  cbn [trim_start]. now rewrite E.
Qed.

Lemma trim_start_suffix l : exists p, l = p ++ trim_start l.
Proof.
  induction l as [|a l [p IH]]; [now exists []|].
  cbn [trim_start]. destruct (is_space a).
  - exists (a :: p). cbn. now rewrite <- IH.
  - now exists [].
Qed.

Lemma trim_start_fixed l :
  match l with a :: _ => is_space a = false | [] => True end -> trim_start l = l.
Proof. destruct l as [|a l]; [reflexivity|]. cbn. now intros ->. Qed.

Lemma trim_start_head l :
  match trim_start l with a :: _ => is_space a = false | [] => True end.
Proof.
  induction l as [|a l IH]; [exact I|].
  cbn [trim_start]. destruct (is_space a) eqn:E; [exact IH|exact E].
Qed.

Lemma trim_idem s : trim (trim s) = trim s.
Proof.
  unfold trim. rewrite list_ascii_of_string_of_list_ascii.
  set (A := trim_start (list_ascii_of_string s)).
  set (X := trim_start (rev A)).
  assert (HB : trim_start (rev X) = rev X).
  { apply trim_start_fixed.
    destruct (trim_start_suffix (rev A)) as [p Hp]. fold X in Hp.
    assert (HA : A = rev X ++ rev p).
    { rewrite <- (rev_involutive A), Hp, rev_app_distr. reflexivity. }
    pose proof (trim_start_head (list_ascii_of_string s)) as Hh. fold A in Hh.
    destruct (rev X) as [|b B'] eqn:E; [exact I|].
    rewrite HA in Hh. exact Hh. }
  rewrite HB, rev_involutive. unfold X. now rewrite trim_start_idem.
Qed.

End LucaBotFacts.

Section LucaBotTheorems.
Import LucaBot LucaBotFacts.
Local Open Scope nat_scope.

(** A click on the toggle while a connection attempt is in progress does
    nothing: the attempt cannot be cancelled from the button.  When
    connected the click disconnects. *)
Theorem toggle_cannot_cancel_connecting (b : Component) :
  (isConnectingRef (api b) = true -> isConnected (api b) = false -> handleToggle b = b) /\
  (isConnected (api b) = true ->
   api (handleToggle b) = disconnect (api b) /\ isConnected (api (handleToggle b)) = false).
Proof.
  unfold handleToggle. split.
  - intros Hc Hi. rewrite Hi. unfold connect. rewrite Hc. cbn [orb]. now destruct b.
  - intros Hi. rewrite Hi. cbn [api]. split; [reflexivity|].
    generalize (api b). intros s. break_state s.
    unfold disconnect, close_session, emit, detach_capture.
    destruct se, wn; cbn; rewrite ?stopAudio_eq; reflexivity.
Qed.

Lemma toggle_cannot_cancel_connecting_witness :
  let b := mkComponent connecting EmptyString in
  isConnectingRef (api b) = true /\ isConnected (api b) = false /\
  handleToggle (handleToggle b) = b /\ tasks (api (handleToggle b)) = [(1, AwaitSession 2)].
Proof.
  cbv zeta. split; [reflexivity|]. split; [reflexivity|].
  pose proof (proj1 (toggle_cannot_cancel_connecting (mkComponent connecting EmptyString))
                eq_refl eq_refl) as H.
  split; [|exact (f_equal (fun c => tasks (api c)) H)].
  exact (eq_trans (f_equal handleToggle H) H).
Defined.

(** Submitting the text field: blank text, or a hook that is not
    connected, changes nothing.  Otherwise the trimmed text goes to
    sendTextMessage and the field is cleared, also when nothing was sent
    (no session, activeFlag false, or the send threw), in which case the
    typed text is lost; a logged message is the trimmed, non-empty text. *)
Theorem handleSendText_clears_input (b : Component) (ok : bool) :
  let text := trim (inputText b) in
  let b' := handleSendText ok b in
  (text = EmptyString \/ isConnected (api b) = false -> b' = b) /\
  (text <> EmptyString -> isConnected (api b) = true ->
   inputText b' = EmptyString /\
   api b' = sendTextMessage text ok (api b) /\
   (sessionRef (api b) = None \/ isSessionActiveRef (api b) = false \/ ok = false ->
    api b' = api b) /\
   (forall k, sessionRef (api b) = Some k -> isSessionActiveRef (api b) = true ->
    ok = true ->
    messages (api b') = messages (api b) ++ [mkMessage user text] /\
    log (api b') = log (api b) ++ [send_text k text])) /\
  trim text = text.
Proof.
  cbv zeta. split; [|split].
  - unfold handleSendText. intros [H|H].
    + now rewrite H.
    + rewrite H. now destruct (trim (inputText b)).
  - intros Hne Hc. unfold handleSendText. rewrite Hc.
    destruct (trim (inputText b)) as [|a t] eqn:E; [congruence|].
    cbn [api inputText]. split; [reflexivity|]. split; [reflexivity|]. split.
    + intros H. generalize dependent (api b). intros s Hc H. break_state s.
      cbn in Hc, H. subst. destruct se, ac, ok; try reflexivity;
        destruct H as [H|[H|H]]; discriminate.
    + intros k Hk Ha ->. generalize dependent (api b). intros s Hc Hk Ha. break_state s.
      cbn in Hc, Hk, Ha. subst. split; reflexivity.
  - apply trim_idem.
Qed.

Lemma handleSendText_clears_input_witness :
  let s := worklet_onmessage loud false connected in
  let b := mkComponent s "  hello " in
  trim (inputText b) = "hello"%string /\ isConnected s = true /\
  isSessionActiveRef s = false /\
  inputText (handleSendText true b) = EmptyString /\
  messages (api (handleSendText true b)) = [].
Proof.
  cbv zeta. split; [reflexivity|]. split; [reflexivity|]. split; [reflexivity|].
  pose proof (proj1 (proj2 (handleSendText_clears_input
                              (mkComponent (worklet_onmessage loud false connected) "  hello ")
                              true))) as H.
  cbv zeta in H.
  assert (Hne : trim "  hello " <> EmptyString) by discriminate.
  destruct (H Hne eq_refl) as (H1 & _ & H3 & _).
  split; [exact H1|].
  exact (eq_trans (f_equal messages (H3 (or_intror (or_introl eq_refl)))) eq_refl).
Defined.

End LucaBotTheorems.
